(** * chart_visualizer.py: a shallow embedding and its properties

    The development follows [src/chart_visualizer.py]: the timing-list
    parsers, the [#NOTES] section splitter, the note-grid parser, hold
    resolution, and the size computation of the renderer.

    Modelling choices.
    - A Python [str] is a [string]; each [ascii] stands for one code point
      below 256.
    - A finite Python [float] is a rational [Q]: arithmetic is exact and
      rounding is outside the model.  The beats of the notes are computed
      from [0], [4] and row counts and stay finite, so they are [Q].  The
      fields of the timing lists are whatever [float(s)] reads from the
      text, which may be an infinity or a NaN: they are [pyfloat].
    - [float(s)] and [int(s)] are builtins of the language, not code of the
      repository; they are the two methods of the class [Builtins], and
      every general theorem holds for any instance.
    - A raised exception is the [Raise] case of [result].
    - [self.notes] is threaded explicitly: the methods that append to it take
      the list and return the new one. *)

From Stdlib Require Import Ascii String QArith Lqa.
From stdpp Require Import base option list sorting gmap strings.

Local Open Scope string_scope.
Local Open Scope nat_scope.
Local Open Scope list_scope.

(** ** The Python runtime the program relies on *)

Module Py.

(** The exceptions the modelled code can raise. *)
Inductive exn : Set := ValueError | IndexError | TypeError.

Inductive result (A : Type) : Type :=
| Ok (a : A)
| Raise (e : exn).
Global Arguments Ok {A} a.
Global Arguments Raise {A} e.

Definition bind {A B} (r : result A) (k : A → result B) : result B :=
  match r with
  | Ok a => k a
  | Raise e => Raise e
  end.

(** [str.isspace] on code points below 256: TAB, LF, VT, FF, CR, the four
    separators 0x1c-0x1f, space, NEL (0x85) and NBSP (0xa0).  The regular
    expression class [\s] on a [str] pattern is the same set. *)
Definition isspace (c : ascii) : bool :=
  let n := nat_of_ascii c in
  ((9 <=? n) && (n <=? 13)) || ((28 <=? n) && (n <=? 32))
  || (n =? 133) || (n =? 160).

Fixpoint lstrip (s : string) : string :=
  match s with
  | String c s' => if isspace c then lstrip s' else s
  | EmptyString => EmptyString
  end.

Fixpoint rstrip (s : string) : string :=
  match s with
  | String c s' =>
      match rstrip s' with
      | EmptyString => if isspace c then EmptyString else String c EmptyString
      | r => String c r
      end
  | EmptyString => EmptyString
  end.

(** [s.strip()] *)
Definition strip (s : string) : string := rstrip (lstrip s).

(** [s.split(sep)] for a one-character separator. *)
Fixpoint split (sep : ascii) (s : string) : list string :=
  match s with
  | EmptyString => [EmptyString]
  | String c s' =>
      if Ascii.eqb c sep then EmptyString :: split sep s'
      else match split sep s' with
           | w :: ws => String c w :: ws
           | [] => [String c EmptyString]
           end
  end.

(** [c in s] for a one-character [c]. *)
Fixpoint contains (c : ascii) (s : string) : bool :=
  match s with
  | EmptyString => false
  | String d s' => Ascii.eqb d c || contains c s'
  end.

(** [len(s)] *)
Definition len (s : string) : nat := String.length s.

(** If [s] starts with [p], what follows [p]. *)
Fixpoint after_prefix (p s : string) : option string :=
  match p, s with
  | EmptyString, _ => Some s
  | String a p', String b s' =>
      if Ascii.eqb a b then after_prefix p' s' else None
  | String _ _, EmptyString => None
  end.

(** A group [[^c]*] followed by [c], matched at the start of [s]: the
    characters before the first [c] and what follows that [c]; [None]
    when [s] has no [c]. *)
Fixpoint until (c : ascii) (s : string) : option (string * string) :=
  match s with
  | EmptyString => None
  | String d s' =>
      if Ascii.eqb d c then Some (EmptyString, s')
      else match until c s' with
           | Some (body, rest) => Some (String d body, rest)
           | None => None
           end
  end.

(** [re.search] for the pattern [#TAG:] + group 1 [[^;]*] + [;]: group 1
    of the leftmost match, [None] when the pattern matches nowhere.

    The source builds the pattern by interpolating the tag into it.  Here
    the tag is matched as literal text, which is what the pattern does when
    the tag has no character with a meaning in a pattern: see [word_tag]
    below.  The tags the program passes are the constants [BPMS], [STOPS],
    [WARPS], [FAKES], [SPEEDS], [SCROLLS], [TITLE], [SUBTITLE], [ARTIST]
    and [CREDIT]. *)
Fixpoint re_search_tag (tag : string) (content : string) : option string :=
  let here :=
    match after_prefix ("#" ++ tag ++ ":") content with
    | Some rest => fst <$> until ";" rest
    | None => None
    end in
  match here with
  | Some body => Some body
  | None =>
      match content with
      | EmptyString => None
      | String _ content' => re_search_tag tag content'
      end
  end.

(** A letter, a digit or an underscore: a character that stands for itself
    in a pattern. *)
Definition is_word (c : ascii) : bool :=
  let n := nat_of_ascii c in
  ((48 <=? n) && (n <=? 57)) || ((65 <=? n) && (n <=? 90))
  || ((97 <=? n) && (n <=? 122)) || (n =? 95).

(** The tags for which [re_search_tag] is the search of the source: those
    made of word characters. *)
Fixpoint word_tag (tag : string) : bool :=
  match tag with
  | EmptyString => true
  | String c tag' => is_word c && word_tag tag'
  end.

(** [sorted(l)] under the comparison [lt] (Python's [<]).  [sorted] is
    stable; it is written here as a stable insertion sort, which returns
    what any stable sort returns when [lt] is a strict weak order on the
    elements of [l].  The order of floats is one as long as no NaN is
    compared; on a list that holds a NaN the result of Python's [sorted]
    depends on its sorting algorithm and is outside the model. *)
Section Sorted.
Context {A : Type} (lt : A → A → bool).

Fixpoint insert_sorted (x : A) (l : list A) : list A :=
  match l with
  | [] => [x]
  | y :: l' => if lt y x then y :: insert_sorted x l' else x :: y :: l'
  end.

Fixpoint sorted (l : list A) : list A :=
  match l with
  | [] => []
  | x :: l' => insert_sorted x (sorted l')
  end.
End Sorted.

(** [x < y] and [x == y] on finite floats. *)
Definition float_lt (x y : Q) : bool :=
  (Qnum x * QDen y <? Qnum y * QDen x)%Z.
Definition float_eq (x y : Q) : bool := Qeq_bool x y.

(** A float as [float(s)] may return it: a finite number, an infinity
    ([negative] for [-inf]) or a NaN. *)
Inductive pyfloat : Type :=
| Finite (q : Q)
| Infinity (negative : bool)
| NaN.

(** [x < y], [x == y] and [x <= y] on such floats.  Every comparison with a
    NaN is false. *)
Definition pyfloat_lt (x y : pyfloat) : bool :=
  match x, y with
  | NaN, _ | _, NaN => false
  | Finite p, Finite q => float_lt p q
  | Infinity true, Infinity true => false
  | Infinity true, _ => true
  | _, Infinity true => false
  | Infinity false, _ => false
  | _, Infinity false => true
  end.

Definition pyfloat_eq (x y : pyfloat) : bool :=
  match x, y with
  | Finite p, Finite q => float_eq p q
  | Infinity a, Infinity b => Bool.eqb a b
  | _, _ => false
  end.

Definition pyfloat_le (x y : pyfloat) : bool :=
  pyfloat_lt x y || pyfloat_eq x y.

(** [x < y] on 2-tuples and 3-tuples of floats: the first position where
    the tuples differ decides.  (Two fields that are the same object count
    as equal whatever they hold; the fields of two entries of a timing list
    come from two calls of [float] and are never the same object.) *)
Definition tuple2_lt (x y : pyfloat * pyfloat) : bool :=
  if negb (pyfloat_eq x.1 y.1) then pyfloat_lt x.1 y.1
  else if negb (pyfloat_eq x.2 y.2) then pyfloat_lt x.2 y.2
  else false.

Definition tuple3_lt (x y : pyfloat * pyfloat * pyfloat) : bool :=
  if negb (pyfloat_eq x.1.1 y.1.1) then pyfloat_lt x.1.1 y.1.1
  else if negb (pyfloat_eq x.1.2 y.1.2) then pyfloat_lt x.1.2 y.1.2
  else if negb (pyfloat_eq x.2 y.2) then pyfloat_lt x.2 y.2
  else false.

(** [int(x)] of a finite float: truncation towards zero. *)
Definition int_of_float (x : Q) : Z := Z.quot (Qnum x) (QDen x).

End Py.
Import Py.

Notation "'let!' x ':=' r 'in' k" := (Py.bind r (λ x, k))
  (at level 10, x name, r at level 100, k at level 200).

(** The two builtins that read numbers.  [None] stands for [ValueError]. *)
Class Builtins := {
  py_float : string → option pyfloat;
  py_int : string → option Z;
}.

Definition float `{Builtins} (s : string) : result pyfloat :=
  match py_float s with Some x => Ok x | None => Raise ValueError end.

Definition int `{Builtins} (s : string) : result Z :=
  match py_int s with Some x => Ok x | None => Raise ValueError end.

(** ** Data model *)

(** [ChartMetadata]: the scalar tags and the six timing lists. *)
Record ChartMetadata := {
  title : string;
  subtitle : string;
  artist : string;
  credit : string;
  difficulty : string;
  meter : Z;
  bpms : list (pyfloat * pyfloat);
  stops : list (pyfloat * pyfloat);
  warps : list (pyfloat * pyfloat);
  fakes : list (pyfloat * pyfloat);
  speeds : list (pyfloat * pyfloat * pyfloat);
  scrolls : list (pyfloat * pyfloat);
}.

(** [Note]; the constructor call of the grid parser leaves [hold_length] and
    [is_fake] at their defaults, [0] and [False]. *)
Record Note := {
  beat : Q;
  column : nat;
  type : string;
  hold_length : Q;
  is_fake : bool;
}.

Definition set_hold_length (n : Note) (x : Q) : Note :=
  {| beat := beat n; column := column n; type := type n;
     hold_length := x; is_fake := is_fake n |}.

(** One element of the list [parse_sm_file] returns: the dictionary with the
    keys ['metadata'], ['notes'] and ['type'].  The value under ['notes'] is
    whatever [_parse_notes] returned, so it may be [None]. *)
Record Chart := {
  chart_metadata : ChartMetadata;
  chart_notes : option (list Note);
  chart_type : string;
}.

(** ** The symbol table *)

(** The entries of the dictionary display [NOTE_TYPES], in source order.  The
    key ["3"] is written twice. *)
Definition NOTE_TYPES_items : list (string * string) :=
  [ ("1", "tap");
    ("2", "hold_head");
    ("3", "hold_tail");
    ("M", "mine");
    ("4", "roll_head");
    ("3", "roll_tail");
    ("0", "none");
    ("F", "fake");
    ("L", "lift") ].

(** A dictionary display stores its entries from left to right; a key that
    comes again replaces the value stored before. *)
Definition dict_display (items : list (string * string)) : gmap string string :=
  fold_left (λ d kv, <[kv.1 := kv.2]> d) items ∅.

Definition NOTE_TYPES : gmap string string := dict_display NOTE_TYPES_items.

(** ** Timing lists *)

(** A [for] loop whose body updates a state and may raise. *)
Fixpoint for_each {A S} (body : A → S → result S) (l : list A) (s : S)
  : result S :=
  match l with
  | [] => Ok s
  | x :: l' => let! s' := body x s in for_each body l' s'
  end.

Section TimingLists.
Context `{Builtins}.

(** The body of the loop over the entries of a two-field list:
    [if '=' in e: beat, value = e.split('='); l.append((float(beat), float(value)))].
    Unpacking into two names raises [ValueError] unless the split has
    exactly two parts. *)
Definition pair_entry (entry : string) (acc : list (pyfloat * pyfloat))
  : result (list (pyfloat * pyfloat)) :=
  if contains "=" entry then
    match split "=" entry with
    | [beat; value] =>
        let! b := float beat in
        let! v := float value in
        Ok (acc ++ [(b, v)])
    | _ => Raise ValueError
    end
  else Ok acc.

(** The list a two-field parser has built when it reaches its [return]:
    the entries in input order.  [_parse_bpms], [_parse_stops],
    [_parse_warps], [_parse_fakes] and [_parse_scrolls] are the same text
    up to the tag. *)
Definition pair_entries (tag content : string)
  : result (list (pyfloat * pyfloat)) :=
  match re_search_tag tag content with
  | Some data => for_each pair_entry (split "," (strip data)) []
  | None => Ok []
  end.

Definition _parse_pairs (tag content : string)
  : result (list (pyfloat * pyfloat)) :=
  let! l := pair_entries tag content in Ok (sorted tuple2_lt l).

Definition _parse_bpms : string → result (list (pyfloat * pyfloat)) :=
  _parse_pairs "BPMS".
Definition _parse_stops : string → result (list (pyfloat * pyfloat)) :=
  _parse_pairs "STOPS".
Definition _parse_warps : string → result (list (pyfloat * pyfloat)) :=
  _parse_pairs "WARPS".
Definition _parse_fakes : string → result (list (pyfloat * pyfloat)) :=
  _parse_pairs "FAKES".
Definition _parse_scrolls : string → result (list (pyfloat * pyfloat)) :=
  _parse_pairs "SCROLLS".

(** The body of the loop of [_parse_speeds]:
    [beat, data = speed.split('=')], then
    [multiplier, duration = data.split(',')]. *)
Definition speed_entry (speed : string) (acc : list (pyfloat * pyfloat * pyfloat))
  : result (list (pyfloat * pyfloat * pyfloat)) :=
  if contains "=" speed then
    match split "=" speed with
    | [beat; data] =>
        match split "," data with
        | [multiplier; duration] =>
            let! b := float beat in
            let! m := float multiplier in
            let! d := float duration in
            Ok (acc ++ [(b, m, d)])
        | _ => Raise ValueError
        end
    | _ => Raise ValueError
    end
  else Ok acc.

Definition speed_entries (content : string)
  : result (list (pyfloat * pyfloat * pyfloat)) :=
  match re_search_tag "SPEEDS" content with
  | Some speed_data => for_each speed_entry (split "," (strip speed_data)) []
  | None => Ok []
  end.

Definition _parse_speeds (content : string)
  : result (list (pyfloat * pyfloat * pyfloat)) :=
  let! l := speed_entries content in Ok (sorted tuple3_lt l).

(** [_extract_tag], for a tag made of word characters (see
    [re_search_tag]). *)
Definition _extract_tag (content tag : string) : string :=
  match re_search_tag tag content with
  | Some g => strip g
  | None => ""
  end.

End TimingLists.

(** ** The note grid *)

(** The innermost loop, [for col, note_type in enumerate(row)], from column
    [col] on. *)
Fixpoint parse_row (beat : Q) (col : nat) (row : string) (notes : list Note)
  : list Note :=
  match row with
  | EmptyString => notes
  | String c row' =>
      let note_type := String c EmptyString in
      let notes' :=
        match NOTE_TYPES !! note_type with
        | Some kind =>
            if bool_decide (note_type ≠ "0")
            then notes ++ [{| beat := beat; column := col; type := kind;
                              hold_length := 0; is_fake := false |}]
            else notes
        | None => notes
        end in
      parse_row beat (S col) row' notes'
  end.

(** [for row_idx, row in enumerate(rows)], from index [row_idx] on. *)
Fixpoint parse_rows (current_beat beats_per_row : Q) (row_idx : nat)
    (rows : list string) (notes : list Note) : list Note :=
  match rows with
  | [] => notes
  | row :: rows' =>
      let notes' :=
        if bool_decide (len row ∉ [4; 8]) then notes
        else parse_row (current_beat + inject_Z (Z.of_nat row_idx) * beats_per_row)%Q
                       0 row notes in
      parse_rows current_beat beats_per_row (S row_idx) rows' notes'
  end.

(** [[row.strip() for row in measure.strip().split('\n') if row.strip()]] *)
Definition rows_of (measure : string) : list string :=
  strip <$> filter (λ row, strip row ≠ "") (split "010" (strip measure)).

(** [for measure_idx, measure in enumerate(measures)], with the running
    [current_beat]. *)
Fixpoint parse_measures (measures : list string) (current_beat : Q)
    (notes : list Note) : list Note :=
  match measures with
  | [] => notes
  | measure :: measures' =>
      let rows := rows_of measure in
      match rows with
      | [] => parse_measures measures' current_beat notes
      | _ :: _ =>
          let beats_per_row := (4 / inject_Z (Z.of_nat (length rows)))%Q in
          parse_measures measures' (current_beat + 4)%Q
            (parse_rows current_beat beats_per_row 0 rows notes)
      end
  end.

(** ** Hold resolution *)

(** [note.type in ['hold_head', 'roll_head']] *)
Definition is_head (n : Note) : bool :=
  bool_decide (type n ∈ ["hold_head"; "roll_head"]).

(** [note.type in ['hold_tail', 'roll_tail']] *)
Definition is_tail (n : Note) : bool :=
  bool_decide (type n ∈ ["hold_tail"; "roll_tail"]).

(** [[i for i, note in enumerate(notes) if note.type in [...]]], counting
    from [i]. *)
Fixpoint hold_heads_from (i : nat) (notes : list Note) : list nat :=
  match notes with
  | [] => []
  | note :: notes' =>
      if is_head note then i :: hold_heads_from (S i) notes'
      else hold_heads_from (S i) notes'
  end.

Definition hold_heads (notes : list Note) : list nat := hold_heads_from 0 notes.

(** The inner loop, [for note in self.notes[head_idx + 1:]], up to its
    [break]: the note that ends the loop, if one does. *)
Fixpoint find_tail (head : Note) (later : list Note) : option Note :=
  match later with
  | [] => None
  | note :: later' =>
      if bool_decide (column note = column head) && is_tail note
      then Some note
      else find_tail head later'
  end.

(** The body of [for head_idx in hold_heads]: the head object is updated in
    place, so the list holds the updated note at [head_idx]. *)
Definition resolve_head (notes : list Note) (head_idx : nat) : list Note :=
  match notes !! head_idx with
  | Some head =>
      match find_tail head (drop (S head_idx) notes) with
      | Some note =>
          <[head_idx := set_hold_length head (beat note - beat head)%Q]> notes
      | None => notes
      end
  | None => notes
  end.

(** [_process_holds], on [self.notes]. *)
Definition _process_holds (notes : list Note) : list Note :=
  fold_left resolve_head (hold_heads notes) notes.

(** [_parse_notes]: its effect on [self.notes] ... *)
Definition _parse_notes (notes_data : string) (self_notes : list Note)
  : list Note :=
  let measures := split "," (strip notes_data) in
  _process_holds (parse_measures measures 0%Q self_notes).

(** ... and the value a call evaluates to: the method has no [return]
    statement, so it is [None]. *)
Definition _parse_notes_returns : option (list Note) := None.

(** ** Chart sections *)

(** The six groups of one match of the [#NOTES] pattern. *)
Record NotesSection := {
  g_chart_type : string;
  g_desc : string;
  g_diff_class : string;
  g_diff_meter : string;
  g_groove_radar : string;
  g_notes_data : string;
}.

(** The [#NOTES] pattern matched at the start of [s]: the literal [#NOTES:],
    white space, five groups without [:] each closed by [:], and a group
    without [;] closed by [;].  Returns the groups and what follows the
    match. *)
Definition match_notes (s : string) : option (NotesSection * string) :=
  rest ← after_prefix "#NOTES:" s;
  '(g1, r1) ← until ":" (lstrip rest);
  '(g2, r2) ← until ":" r1;
  '(g3, r3) ← until ":" r2;
  '(g4, r4) ← until ":" r3;
  '(g5, r5) ← until ":" r4;
  '(g6, r6) ← until ";" r5;
  Some ({| g_chart_type := g1; g_desc := g2; g_diff_class := g3;
           g_diff_meter := g4; g_groove_radar := g5; g_notes_data := g6 |},
        r6).

(** [re.finditer]: the matches from left to right, none overlapping.  After
    a match the search goes on where the match ended: [skip] counts the
    characters of the last match that are still to be passed. *)
Fixpoint finditer_notes (skip : nat) (content : string) : list NotesSection :=
  match skip with
  | S skip' =>
      match content with
      | EmptyString => []
      | String _ content' => finditer_notes skip' content'
      end
  | O =>
      match match_notes content with
      | Some (groups, rest) =>
          groups ::
          match content with
          | EmptyString => []
          | String _ content' =>
              finditer_notes (len content - len rest - 1) content'
          end
      | None =>
          match content with
          | EmptyString => []
          | String _ content' => finditer_notes 0 content'
          end
      end
  end.

Section ParseFile.
Context `{Builtins}.

(** The body of [for section in notes_sections]; the state is the list
    [charts] and [self.notes]. *)
Definition parse_section (base : ChartMetadata) (section : NotesSection)
    (st : list Chart * list Note) : result (list Chart * list Note) :=
  let '(charts, self_notes) := st in
  if bool_decide (strip (g_chart_type section) ∉ ["dance-single"; "dance-double"])
  then Ok st
  else
    let! m := int (strip (g_diff_meter section)) in
    let chart_metadata :=
      {| title := title base; subtitle := subtitle base;
         artist := artist base; credit := credit base;
         difficulty := strip (g_diff_class section); meter := m;
         bpms := bpms base; stops := stops base; warps := warps base;
         fakes := fakes base; speeds := speeds base;
         scrolls := scrolls base |} in
    let self_notes' := _parse_notes (strip (g_notes_data section)) self_notes in
    let notes := _parse_notes_returns in
    Ok (charts ++ [{| chart_metadata := chart_metadata;
                      chart_notes := notes;
                      chart_type := strip (g_chart_type section) |}],
        self_notes').

(** [parse_sm_file], on the text of the file and [self.notes]: the list of
    charts it returns and [self.notes] afterwards.  [difficulty] and
    [meter] of the base metadata are set per section. *)
Definition parse_sm_file (content : string) (self_notes : list Note)
  : result (list Chart * list Note) :=
  let! b := _parse_bpms content in
  let! s := _parse_stops content in
  let! w := _parse_warps content in
  let! f := _parse_fakes content in
  let! sp := _parse_speeds content in
  let! sc := _parse_scrolls content in
  let base_metadata :=
    {| title := _extract_tag content "TITLE";
       subtitle := _extract_tag content "SUBTITLE";
       artist := _extract_tag content "ARTIST";
       credit := _extract_tag content "CREDIT";
       difficulty := ""; meter := 0;
       bpms := b; stops := s; warps := w; fakes := f; speeds := sp;
       scrolls := sc |} in
  for_each (parse_section base_metadata) (finditer_notes 0 content)
           ([], self_notes).

(** [ChartVisualizer.__init__]: [self.notes = []], then a first
    [parse_sm_file] whose result is dropped.  Returns [self.notes]. *)
Definition init (content : string) : result (list Note) :=
  let! r := parse_sm_file content [] in Ok r.2.

End ParseFile.

(** ** The size of the canvas *)

(** [max(xs)] over floats: the first greatest element; [ValueError] on an
    empty sequence. *)
Definition py_max (xs : list Q) : result Q :=
  match xs with
  | [] => Raise ValueError
  | x :: xs' => Ok (fold_left (λ m y, if float_lt m y then y else m) xs' x)
  end.

(** [generate_visualization] up to the call of [Image.new]: the pair
    [(width, height)] the image is created with.  [measures] is [None] or an
    integer; [not measures] holds for [None] and for [0].  A [None] under
    ['notes'] can be neither iterated nor indexed. *)
Definition generate_visualization (chart_data : Chart) (measures : option Z)
  : result (Z * Z) :=
  let padding := 40%Z in
  let note_size := 20%Z in
  let pixels_per_beat := 60%Z in
  let column_width := (note_size + 4)%Z in
  let from_notes :=
    match chart_notes chart_data with
    | None => Raise TypeError
    | Some notes =>
        let! max_beat := py_max (beat <$> notes) in
        Ok (int_of_float (max_beat / 4) + 1)%Z
    end in
  let! measures :=
    match measures with
    | Some m => if bool_decide (m ≠ 0%Z) then Ok m else from_notes
    | None => from_notes
    end in
  let! first :=
    match chart_notes chart_data with
    | None => Raise TypeError
    | Some [] => Raise IndexError
    | Some (note :: _) => Ok note
    end in
  let width := (padding * 2 + Z.of_nat (len (type first)) * column_width)%Z in
  let height := (padding * 2 + measures * 4 * pixels_per_beat)%Z in
  Ok (width, height).

Section ProcessFile.
Context `{Builtins}.

(** [process_sm_file], on the text of the file: a visualizer is built
    (first parse), [parse_sm_file] is called again on it, and every chart
    returned is rendered.  Returns the sizes of the images. *)
Definition process_sm_file (content : string) (measures : option Z)
  : result (list (Z * Z)) :=
  let! self_notes := init content in
  let! r := parse_sm_file content self_notes in
  for_each (λ chart sizes,
              let! size := generate_visualization chart measures in
              Ok (sizes ++ [size]))
           r.1 [].

End ProcessFile.

(** ** An instance of the builtins for the examples

    A reader of plain decimal literals, [[sign] digits [. digits]] between
    optional white space, read exactly.  Python reads more ([1e3], [inf],
    [nan], digits grouped by [_]); the examples below use plain literals
    only. *)

Module Decimal.

Definition digit (c : ascii) : option Z :=
  let n := nat_of_ascii c in
  if (48 <=? n) && (n <=? 57) then Some (Z.of_nat (n - 48)) else None.

(** The number written by the digits of [s] after the digits read so far
    ([acc]); [None] if [s] holds another character. *)
Fixpoint digits (s : string) (acc : Z) : option Z :=
  match s with
  | EmptyString => Some acc
  | String c s' => d ← digit c; digits s' (10 * acc + d)%Z
  end.

Definition unsigned_float (s : string) : option Q :=
  match split "." s with
  | [ip] => if bool_decide (ip = "") then None else n ← digits ip 0; Some (inject_Z n)
  | [ip; fp] =>
      if bool_decide (ip = "" ∧ fp = "") then None
      else n ← digits (ip ++ fp) 0;
           Some (Qred (Qmake n (Z.to_pos (10 ^ Z.of_nat (len fp)))))
  | _ => None
  end.

(** The white space [float] and [int] pass over at the two ends of their
    argument: that of [str.isspace] but the four separators 0x1c-0x1f. *)
Definition blank (c : ascii) : bool :=
  let n := nat_of_ascii c in
  isspace c && negb ((28 <=? n) && (n <=? 31)).

Fixpoint ltrim (s : string) : string :=
  match s with
  | String c s' => if blank c then ltrim s' else s
  | EmptyString => EmptyString
  end.

Fixpoint rtrim (s : string) : string :=
  match s with
  | String c s' =>
      match rtrim s' with
      | EmptyString => if blank c then EmptyString else String c EmptyString
      | r => String c r
      end
  | EmptyString => EmptyString
  end.

Definition signed {A} (read : string → option A) (neg : A → A) (s : string)
  : option A :=
  match rtrim (ltrim s) with
  | String "-" s' => neg <$> read s'
  | String "+" s' => read s'
  | s' => read s'
  end.

Definition read_float (s : string) : option pyfloat :=
  Finite <$> signed unsigned_float Qopp s.

Definition read_int : string → option Z :=
  signed (λ s, if bool_decide (s = "") then None else digits s 0) Z.opp.

Definition builtins : Builtins :=
  {| py_float := read_float; py_int := read_int |}.

End Decimal.

(** ** Specification vocabulary *)

(** A block [#TAG:body;] occurs somewhere in the text. *)
Definition tag_block_occurs (tag content : string) : Prop :=
  ∃ pre body post : string,
    content = pre +:+ ("#" +:+ tag +:+ ":") +:+ body +:+ ";" +:+ post.

(** The literal [#TAG:] that opens a block of the tag. *)
Definition opening (tag : string) : string := "#" +:+ tag +:+ ":".

(** [s.find(sub)]: the least index at which [sub] occurs in [s], [None]
    when it occurs nowhere. *)
Fixpoint find (sub s : string) : option nat :=
  match after_prefix sub s with
  | Some _ => Some 0
  | None =>
      match s with
      | EmptyString => None
      | String _ s' => S <$> find sub s'
      end
  end.

(** The text is [pre], then a block [#TAG:body;], then [post], and this
    block is the first of the tag: the literal [#TAG:] occurs nowhere
    before it, and the body runs up to the first [;]. *)
Definition first_block (tag pre body post content : string) : Prop :=
  content = pre +:+ opening tag +:+ body +:+ ";" +:+ post ∧
  find (opening tag) content = Some (len pre) ∧
  contains ";" body = false.

(** No field of the tuple is a NaN. *)
Definition nan_free2 (x : pyfloat * pyfloat) : Prop :=
  x.1 ≠ NaN ∧ x.2 ≠ NaN.

(** The order of Python on 2-tuples and 3-tuples of floats, as a
    proposition: [x <= y]. *)
Definition tuple2_le (x y : pyfloat * pyfloat) : Prop :=
  pyfloat_lt x.1 y.1 ∨ (pyfloat_eq x.1 y.1 ∧ pyfloat_le x.2 y.2).

Definition tuple3_le (x y : pyfloat * pyfloat * pyfloat) : Prop :=
  pyfloat_lt x.1.1 y.1.1 ∨
  (pyfloat_eq x.1.1 y.1.1 ∧
   (pyfloat_lt x.1.2 y.1.2 ∨ (pyfloat_eq x.1.2 y.1.2 ∧ pyfloat_le x.2 y.2))).

(** Two tuples are equal field by field ([x == y] in Python). *)
Definition tuple2_eq (x y : pyfloat * pyfloat) : bool :=
  pyfloat_eq x.1 y.1 && pyfloat_eq x.2 y.2.

Definition tuple3_eq (x y : pyfloat * pyfloat * pyfloat) : bool :=
  pyfloat_eq x.1.1 y.1.1 && pyfloat_eq x.1.2 y.1.2 && pyfloat_eq x.2 y.2.

(** The five parsers of two-field lists, each with its tag. *)
Definition two_field_parsers `{Builtins}
  : list (string * (string → result (list (pyfloat * pyfloat)))) :=
  [ ("BPMS", _parse_bpms); ("STOPS", _parse_stops); ("WARPS", _parse_warps);
    ("FAKES", _parse_fakes); ("SCROLLS", _parse_scrolls) ].

(** The kinds that open and that close a hold or a roll. *)
Definition head_kind (kind : string) : Prop :=
  kind = "hold_head" ∨ kind = "roll_head".
Definition tail_kind (kind : string) : Prop :=
  kind = "hold_tail" ∨ kind = "roll_tail".

(** [t] is a tail of either family in the column of [head]. *)
Definition closes (head t : Note) : Prop :=
  column t = column head ∧ tail_kind (type t).

(** Hold resolution in closed form: every head looks at the notes after it. *)
Fixpoint resolve_all (notes : list Note) : list Note :=
  match notes with
  | [] => []
  | n :: later =>
      (if is_head n then
         match find_tail n later with
         | Some t => set_hold_length n (beat t - beat n)%Q
         | None => n
         end
       else n) :: resolve_all later
  end.

(** Concatenation, as a function that can be mapped. *)
Abbreviation flatten := (@concat _).

(** Column and kind of a note. *)
Abbreviation col_kind := (λ n : Note, (column n, type n)).

(** What one grid character contributes at column [col]: the column and the
    kind the table gives, unless the character is ["0"] or not in the
    table. *)
Definition symbol_at (col : nat) (c : ascii) : option (nat * string) :=
  kind ← NOTE_TYPES !! String c "";
  if bool_decide (String c "" = "0") then None else Some (col, kind).

(** [[(col, NOTE_TYPES[c]) for col, c in enumerate(row) if ...]] *)
Definition row_symbols (row : string) : list (nat * string) :=
  omap (λ p, symbol_at p.1 p.2) (imap pair (list_ascii_of_string row)).

(** The guard on the length of a row. *)
Definition accepted (row : string) : Prop := len row = 4 ∨ len row = 8.

(** How many of the given measures have a non-blank row. *)
Definition measures_with_rows (measures : list string) : nat :=
  length (filter (λ measure, rows_of measure ≠ []) measures).

(** The notes each measure appends, measure by measure. *)
Fixpoint measure_segments (measures : list string) (current_beat : Q)
  : list (list Note) :=
  match measures with
  | [] => []
  | measure :: measures' =>
      let rows := rows_of measure in
      match rows with
      | [] => [] :: measure_segments measures' current_beat
      | _ :: _ =>
          parse_rows current_beat (4 / inject_Z (Z.of_nat (length rows)))%Q
                     0 rows []
          :: measure_segments measures' (current_beat + 4)%Q
      end
  end.

(** The notes each row of a measure appends, row by row. *)
Fixpoint row_segments (current_beat beats_per_row : Q) (row_idx : nat)
    (rows : list string) : list (list Note) :=
  match rows with
  | [] => []
  | row :: rows' =>
      (if bool_decide (len row ∉ [4; 8]) then []
       else parse_row (current_beat + inject_Z (Z.of_nat row_idx) * beats_per_row)%Q
                      0 row [])
      :: row_segments current_beat beats_per_row (S row_idx) rows'
  end.

(** The notes the grid appends, measure by measure and row by row. *)
Fixpoint grid_segments (measures : list string) (current_beat : Q)
  : list (list (list Note)) :=
  match measures with
  | [] => []
  | measure :: measures' =>
      let rows := rows_of measure in
      match rows with
      | [] => [] :: grid_segments measures' current_beat
      | _ :: _ =>
          row_segments current_beat (4 / inject_Z (Z.of_nat (length rows)))%Q
                       0 rows
          :: grid_segments measures' (current_beat + 4)%Q
      end
  end.


(** Where a note is drawn on a canvas of the given height:
    [x = padding + note.column * column_width] and
    [y = height - padding - note.beat * pixels_per_beat]. *)
Definition note_x (note : Note) : Z := (40 + Z.of_nat (column note) * (20 + 4))%Z.

Definition note_y (height : Z) (note : Note) : Q :=
  (inject_Z height - 40 - beat note * 60)%Q.

(** Beat, column and kind of a note: all of it but the hold length. *)
Abbreviation shape := (λ n : Note, (beat n, column n, type n, is_fake n)).

(** The text of a [#NOTES] block with the given six fields. *)
Definition notes_block (section : NotesSection) : string :=
  "#NOTES:" +:+ g_chart_type section +:+ ":" +:+ g_desc section +:+ ":"
  +:+ g_diff_class section +:+ ":" +:+ g_diff_meter section +:+ ":"
  +:+ g_groove_radar section +:+ ":" +:+ g_notes_data section +:+ ";".

(** [",".join(parts)] *)
Fixpoint join_commas (parts : list string) : string :=
  match parts with
  | [] => ""
  | [part] => part
  | part :: parts' => part +:+ "," +:+ join_commas parts'
  end.

(** The text [beat=value] of a list entry. *)
Definition entry_text (entry : string * string) : string :=
  entry.1 +:+ "=" +:+ entry.2.

(** A field of a list entry that holds none of the separators. *)
Definition plain (s : string) : Prop :=
  contains "," s = false ∧ contains "=" s = false ∧ contains ";" s = false.

(** The two fields of an entry are plain and [float] reads them as the given
    values. *)
Definition reads `{Builtins} (text : string * string)
    (value : pyfloat * pyfloat) : Prop :=
  plain text.1 ∧ plain text.2 ∧
  py_float text.1 = Some value.1 ∧ py_float text.2 = Some value.2.

(** The test on the chart type of a section. *)
Definition supported (section : NotesSection) : Prop :=
  strip (g_chart_type section) ∈ ["dance-single"; "dance-double"].

(** The notes a section adds to [self.notes], up to hold lengths. *)
Definition section_shapes (section : NotesSection) : list (Q * nat * string * bool) :=
  if bool_decide (supported section)
  then shape <$> concat (measure_segments
                           (split "," (strip (strip (g_notes_data section)))) 0%Q)
  else [].


(** * Properties *)

(** ** Strings *)

Lemma ascii_eqb_true (a b : ascii) : Ascii.eqb a b = true ↔ a = b.
Proof. apply Ascii.eqb_eq. Qed.

Lemma ascii_eqb_false (a b : ascii) : Ascii.eqb a b = false ↔ a ≠ b.
Proof. apply Ascii.eqb_neq. Qed.

Lemma string_app_cons (c : ascii) (s t : string) :
  String c s +:+ t = String c (s +:+ t).
Proof. reflexivity. Qed.

Lemma string_app_nil (t : string) : "" +:+ t = t.
Proof. reflexivity. Qed.

Lemma after_prefix_Some (p s r : string) :
  after_prefix p s = Some r ↔ s = p +:+ r.
Proof.
  revert s. induction p as [|a p IH]; intros s; simpl.
  - split; [by intros [= ->] | by intros ->].
  - destruct s as [|b s]; [split; intros; discriminate |].
    destruct (Ascii.eqb a b) eqn:E.
    + apply ascii_eqb_true in E as ->. rewrite IH.
      split; [by intros -> | by intros [= ->]].
    + apply ascii_eqb_false in E.
      split; [discriminate | intros [= -> _]; done].
Qed.

Lemma until_Some (c : ascii) (s body rest : string) :
  until c s = Some (body, rest) →
  s = body +:+ String c rest ∧ contains c body = false.
Proof.
  revert body. induction s as [|d s IH]; intros body; simpl; [discriminate |].
  destruct (Ascii.eqb d c) eqn:E.
  - apply ascii_eqb_true in E as ->. by intros [= <- <-].
  - destruct (until c s) as [[b r]|]; [|discriminate].
    intros [= <- <-]. destruct (IH b eq_refl) as [-> Hb].
    simpl. by rewrite E, Hb.
Qed.

Lemma until_None (c : ascii) (s : string) :
  until c s = None ↔ contains c s = false.
Proof.
  induction s as [|d s IH]; simpl; [done |].
  destruct (Ascii.eqb d c); simpl; [split; discriminate |].
  destruct (until c s) as [[b r]|]; [|tauto].
  split; [discriminate | intros E; apply IH in E; discriminate].
Qed.

Lemma contains_app (c : ascii) (a b : string) :
  contains c (a +:+ b) = contains c a || contains c b.
Proof.
  induction a as [|d a IH]; [done |].
  rewrite string_app_cons. simpl. by rewrite IH, orb_assoc.
Qed.

Lemma re_search_tag_eq (tag content : string) :
  re_search_tag tag content =
  match
    match after_prefix ("#" +:+ tag +:+ ":") content with
    | Some rest => fst <$> until ";" rest
    | None => None
    end
  with
  | Some body => Some body
  | None =>
      match content with
      | EmptyString => None
      | String _ content' => re_search_tag tag content'
      end
  end.
Proof. destruct content; reflexivity. Qed.

(** A successful search found a block. *)
Lemma re_search_tag_occurs (tag content body : string) :
  re_search_tag tag content = Some body → tag_block_occurs tag content.
Proof.
  induction content as [|c content IH]; rewrite re_search_tag_eq;
    (destruct (after_prefix _ _) as [rest|] eqn:E;
     [destruct (until ";" rest) as [[b r]|] eqn:U; simpl;
      [intros _; apply after_prefix_Some in E; apply until_Some in U as [-> _];
       exists "", b, r; by rewrite E |] |]); try discriminate.
  - intros (pre & b & post & ->)%IH. by exists (String c pre), b, post.
  - intros (pre & b & post & ->)%IH. by exists (String c pre), b, post.
Qed.

(** Where a block occurs the search succeeds. *)
Lemma occurs_re_search_tag (tag content : string) :
  tag_block_occurs tag content → is_Some (re_search_tag tag content).
Proof.
  intros (pre & body & post & ->).
  induction pre as [|c pre IH]; rewrite re_search_tag_eq.
  - rewrite string_app_nil.
    assert (after_prefix ("#" +:+ tag +:+ ":")
              (("#" +:+ tag +:+ ":") +:+ body +:+ ";" +:+ post)
            = Some (body +:+ ";" +:+ post)) as ->
      by by apply after_prefix_Some.
    destruct (until ";" (body +:+ ";" +:+ post)) as [[b r]|] eqn:U;
      simpl; [eauto |].
    apply until_None in U. rewrite contains_app in U.
    change (";" +:+ post) with (String ";" post) in U. simpl in U.
    by rewrite orb_true_r in U.
  - rewrite string_app_cons.
    destruct (match after_prefix _ _ with Some _ => _ | None => _ end); eauto.
Qed.

Lemma absent_re_search_tag (tag content : string) :
  ¬ tag_block_occurs tag content → re_search_tag tag content = None.
Proof.
  intros Hn. destruct (re_search_tag tag content) eqn:E; [|done].
  destruct Hn. by eapply re_search_tag_occurs.
Qed.

Lemma split_cons_eq (sep c : ascii) (s : string) :
  split sep (String c s) =
  if Ascii.eqb c sep then "" :: split sep s
  else match split sep s with
       | w :: ws => String c w :: ws
       | [] => [String c ""]
       end.
Proof. reflexivity. Qed.

(** No part of a split holds the separator. *)
Lemma split_no_sep (sep : ascii) (s w : string) :
  w ∈ split sep s → contains sep w = false.
Proof.
  revert w. induction s as [|c s IH]; intros w.
  - simpl. by intros ->%list_elem_of_singleton.
  - rewrite split_cons_eq. destruct (Ascii.eqb c sep) eqn:E.
    + intros [->| Hw]%elem_of_cons; [done | by apply IH].
    + destruct (split sep s) as [|w0 ws] eqn:S.
      * intros ->%list_elem_of_singleton. simpl. by rewrite E.
      * intros [->| Hw]%elem_of_cons.
        -- simpl. rewrite E. apply IH. by left.
        -- apply IH. by right.
Qed.

(** A part of a split holds no character the whole string lacks. *)
Lemma split_contains (sep c : ascii) (s w : string) :
  contains c s = false → w ∈ split sep s → contains c w = false.
Proof.
  revert w. induction s as [|d s IH]; intros w.
  - simpl. by intros _ ->%list_elem_of_singleton.
  - simpl contains. intros [Hd Hs]%orb_false_iff. rewrite split_cons_eq.
    destruct (Ascii.eqb d sep).
    + intros [->| Hw]%elem_of_cons; [done | by apply IH].
    + destruct (split sep s) as [|w0 ws] eqn:S.
      * intros ->%list_elem_of_singleton. simpl. by rewrite Hd.
      * intros [->| Hw]%elem_of_cons.
        -- simpl. rewrite Hd. apply IH; [done | by left].
        -- apply IH; [done | by right].
Qed.

(** Splitting on a character the string lacks returns the string. *)
Lemma split_absent (sep : ascii) (s : string) :
  contains sep s = false → split sep s = [s].
Proof.
  induction s as [|c s IH]; [done |].
  simpl contains. intros [Hc Hs]%orb_false_iff.
  rewrite split_cons_eq, Hc, IH; done.
Qed.

(** ** Speed changes *)

Section Speeds.
Context `{Builtins}.

(** An entry without a comma: the second unpacking cannot succeed. *)
Lemma speed_entry_no_comma (speed : string)
    (acc : list (pyfloat * pyfloat * pyfloat)) :
contains "," speed = false →
speed_entry speed acc =
if contains "=" speed then Raise ValueError else Ok acc.
Proof.
intros Hc. unfold speed_entry. destruct (contains "=" speed); [|done].
destruct (split "=" speed) as [|beat [|data [|x l]]] eqn:S; try done.
assert (contains "," data = false) as Hd.
{ eapply split_contains; [exact Hc |]. rewrite S. set_solver. }
by rewrite (split_absent _ _ Hd).
Qed.

Lemma for_each_speed_entry (entries : list string)
    (acc : list (pyfloat * pyfloat * pyfloat)) :
(∀ e, e ∈ entries → contains "," e = false) →
for_each speed_entry entries acc =
if existsb (contains "=") entries then Raise ValueError else Ok acc.
Proof.
revert acc. induction entries as [|e entries IH]; intros acc He; [done |].
simpl. rewrite speed_entry_no_comma by (apply He; by left).
destruct (contains "=" e); simpl; [done |].
apply IH. intros e' He'. apply He. by right.
Qed.

Lemma parse_speeds_eq (content : string) :
_parse_speeds content =
match re_search_tag "SPEEDS" content with
| Some speed_data =>
if existsb (contains "=") (split "," (strip speed_data))
then Raise ValueError else Ok []
| None => Ok []
end.
Proof.
unfold _parse_speeds, speed_entries.
destruct (re_search_tag "SPEEDS" content) as [speed_data|]; [|done].
rewrite for_each_speed_entry by (intros e; apply split_no_sep).
by destruct (existsb _ _).
Qed.

End Speeds.

(** C9.  [_parse_speeds] splits the tag body on [,] before it splits an
    entry's value on [,], so the value of an entry holds no comma and never
    unpacks into multiplier and duration: the parser raises [ValueError] as
    soon as the body has an entry with [=], and returns the empty list
    otherwise.  On [#SPEEDS:0=1.5,0.5;] it raises, where the claim expects
    the tuple (0, 1.5, 0.5). *)
Theorem parse_speeds_raises_on_every_entry :
  (∀ (B : Builtins) (content : string),
     _parse_speeds content =
     match re_search_tag "SPEEDS" content with
     | Some speed_data =>
         if existsb (contains "=") (split "," (strip speed_data))
         then Raise ValueError else Ok []
     | None => Ok []
     end) ∧
  @_parse_speeds Decimal.builtins "#SPEEDS:0=1.5,0.5;" = Raise ValueError.
Proof.
  split; [intros B content; apply parse_speeds_eq | reflexivity].
Qed.

(** ** Absent timing lists *)

Section Absent.
Context `{Builtins}.

Lemma parse_pairs_absent (tag content : string) :
¬ tag_block_occurs tag content → _parse_pairs tag content = Ok [].
Proof.
intros Hn. unfold _parse_pairs, pair_entries.
by rewrite (absent_re_search_tag _ _ Hn).
Qed.

Lemma parse_speeds_absent (content : string) :
¬ tag_block_occurs "SPEEDS" content → _parse_speeds content = Ok [].
Proof.
intros Hn. unfold _parse_speeds, speed_entries.
by rewrite (absent_re_search_tag _ _ Hn).
Qed.

End Absent.

(** C10.  When no block of a timing tag occurs in the text, the parser of
    that tag returns the empty list and raises nothing. *)
Theorem absent_timing_list_is_empty (B : Builtins) (content : string) :
  (¬ tag_block_occurs "BPMS" content → _parse_bpms content = Ok []) ∧
  (¬ tag_block_occurs "STOPS" content → _parse_stops content = Ok []) ∧
  (¬ tag_block_occurs "WARPS" content → _parse_warps content = Ok []) ∧
  (¬ tag_block_occurs "FAKES" content → _parse_fakes content = Ok []) ∧
  (¬ tag_block_occurs "SPEEDS" content → _parse_speeds content = Ok []) ∧
  (¬ tag_block_occurs "SCROLLS" content → _parse_scrolls content = Ok []).
Proof.
  repeat split; first [apply parse_pairs_absent | apply parse_speeds_absent].
Qed.

Lemma not_occurs_by_search (tag content : string) :
  re_search_tag tag content = None → ¬ tag_block_occurs tag content.
Proof.
  intros E [b Hb]%occurs_re_search_tag. congruence.
Qed.

Lemma absent_timing_list_is_empty_witness :
  let content := "#TITLE:Song;#BPMS:0=120;#STOPS:0=120" in
  ¬ tag_block_occurs "STOPS" content ∧
  ¬ tag_block_occurs "SPEEDS" content ∧
  @_parse_stops Decimal.builtins content = Ok [] ∧
  @_parse_speeds Decimal.builtins content = Ok [].
Proof.
  pose proof (absent_timing_list_is_empty Decimal.builtins
                "#TITLE:Song;#BPMS:0=120;#STOPS:0=120") as (_ & Hs & _ & _ & Hp & _).
  assert (¬ tag_block_occurs "STOPS" "#TITLE:Song;#BPMS:0=120;#STOPS:0=120") as N1
    by (apply not_occurs_by_search; vm_compute; reflexivity).
  assert (¬ tag_block_occurs "SPEEDS" "#TITLE:Song;#BPMS:0=120;#STOPS:0=120") as N2
    by (apply not_occurs_by_search; vm_compute; reflexivity).
  exact (conj N1 (conj N2 (conj (Hs N1) (Hp N2)))).
Defined.
(** ** Sorting *)

(** The order laws are asked of the elements that satisfy [P] only: the
    order of floats obeys them on the floats that are not NaN. *)
Section SortedFacts.
Context {A : Type} (lt : A → A → bool) (P : A → Prop).

(** [x] does not come after [y]. *)
Let le (x y : A) : Prop := lt y x = false.
(** Neither comes before the other. *)
Let eqv (x y : A) : bool := negb (lt x y) && negb (lt y x).

Hypothesis lt_asym : ∀ x y, P x → P y → lt x y = true → lt y x = false.
Hypothesis le_trans : ∀ x y z, P x → P y → P z → le x y → le y z → le x z.
Hypothesis eqv_lt :
  ∀ x y z, P x → P y → P z → eqv z x → eqv z y → lt y x = false.

Lemma insert_sorted_perm (x : A) (l : list A) :
  insert_sorted lt x l ≡ₚ x :: l.
Proof.
  induction l as [|y l IH]; simpl; [done |].
  destruct (lt y x); [|done]. rewrite IH. apply Permutation_swap.
Qed.

Lemma sorted_perm (l : list A) : sorted lt l ≡ₚ l.
Proof.
  induction l as [|x l IH]; simpl; [done |].
  by rewrite insert_sorted_perm, IH.
Qed.

Lemma insert_sorted_sorted (x : A) (l : list A) :
  P x → Forall P l →
  StronglySorted le l → StronglySorted le (insert_sorted lt x l).
Proof.
  intros Px Pl S. induction S as [|y l Hl IH Hy]; simpl.
  - repeat constructor.
  - apply Forall_cons in Pl as [Py Pl]. destruct (lt y x) eqn:E.
    + constructor; [by apply IH |]. rewrite insert_sorted_perm.
      constructor; [by apply lt_asym | done].
    + constructor; [by constructor |].
      constructor; [done |].
      apply Forall_forall. intros z Hz.
      apply (le_trans x y z); try done.
      * by eapply Forall_forall in Pl.
      * by eapply Forall_forall in Hy.
Qed.

Lemma sorted_sorted (l : list A) :
  Forall P l → StronglySorted le (sorted lt l).
Proof.
  induction l as [|x l IH]; simpl; [constructor |].
  intros [Px Pl]%Forall_cons. apply insert_sorted_sorted; [done | | auto].
  apply Forall_forall. intros y Hy. rewrite sorted_perm in Hy.
  by eapply Forall_forall in Pl.
Qed.

(** Stability: the elements equivalent to a given one keep their order. *)
Lemma insert_sorted_stable (z x : A) (l : list A) :
  P z → P x → Forall P l →
  filter (λ y, eqv z y) (insert_sorted lt x l) = filter (λ y, eqv z y) (x :: l).
Proof.
  intros Pz Px Pl. induction l as [|y l IH]; simpl; [done |].
  apply Forall_cons in Pl as [Py Pl].
  destruct (lt y x) eqn:E; [|done].
  rewrite filter_cons, IH, !filter_cons by done.
  destruct (decide (eqv z y)) as [Hy|Hy], (decide (eqv z x)) as [Hx|Hx]; try done.
  by rewrite (eqv_lt x y z) in E.
Qed.

Lemma sorted_stable (z : A) (l : list A) :
  P z → Forall P l →
  filter (λ y, eqv z y) (sorted lt l) = filter (λ y, eqv z y) l.
Proof.
  intros Pz. induction l as [|x l IH]; simpl; [done |].
  intros [Px Pl]%Forall_cons.
  rewrite insert_sorted_stable, !filter_cons, IH; try done.
  apply Forall_forall. intros y Hy. rewrite sorted_perm in Hy.
  by eapply Forall_forall in Pl.
Qed.

End SortedFacts.
Lemma StronglySorted_weaken {A} (R S : A → A → Prop) (l : list A) :
  (∀ x y, R x y → S x y) → StronglySorted R l → StronglySorted S l.
Proof.
  intros HRS. induction 1 as [|x l Hl IH Hx]; constructor; [done |].
  eapply Forall_impl; [exact Hx | auto].
Qed.

(** ** The order on floats and tuples *)

Lemma float_lt_spec (x y : Q) : float_lt x y = true ↔ (x < y)%Q.
Proof. unfold float_lt, Qlt. apply Z.ltb_lt. Qed.

Lemma float_lt_false (x y : Q) : float_lt x y = false ↔ (y <= x)%Q.
Proof. unfold float_lt, Qle. apply Z.ltb_ge. Qed.

Lemma float_eq_spec (x y : Q) : float_eq x y = true ↔ (x == y)%Q.
Proof. apply Qeq_bool_iff. Qed.

Lemma float_eq_false (x y : Q) : float_eq x y = false ↔ ¬ (x == y)%Q.
Proof.
  rewrite <- float_eq_spec. destruct (float_eq x y); split; done.
Qed.

(** Turns the comparisons of finite floats in the goal and in the
    hypotheses into inequalities of rationals. *)
Ltac float_order :=
  repeat match goal with
    | H : float_lt _ _ = true |- _ => apply float_lt_spec in H
    | H : float_lt _ _ = false |- _ => apply float_lt_false in H
    | H : float_eq _ _ = true |- _ => apply float_eq_spec in H
    | H : float_eq _ _ = false |- _ => apply float_eq_false in H
    | |- float_lt _ _ = true => apply float_lt_spec
    | |- float_lt _ _ = false => apply float_lt_false
    | |- float_eq _ _ = true => apply float_eq_spec
    | |- float_eq _ _ = false => apply float_eq_false
    end.

Lemma pyfloat_lt_asym (x y : pyfloat) :
  pyfloat_lt x y = true → pyfloat_lt y x = false.
Proof.
  destruct x as [p|[]|], y as [q|[]|]; simpl; try done.
  intros. float_order. lra.
Qed.

(** Away from NaN, not coming after is transitive. *)
Lemma pyfloat_le_trans (x y z : pyfloat) :
  x ≠ NaN → y ≠ NaN → z ≠ NaN →
  pyfloat_lt y x = false → pyfloat_lt z y = false → pyfloat_lt z x = false.
Proof.
  destruct x as [p|[]|], y as [q|[]|], z as [r|[]|]; simpl; try done.
  intros. float_order. lra.
Qed.

(** Away from NaN, two floats are equal exactly when neither is below the
    other. *)
Lemma pyfloat_eq_spec (x y : pyfloat) :
  x ≠ NaN → y ≠ NaN →
  pyfloat_eq x y = negb (pyfloat_lt x y) && negb (pyfloat_lt y x).
Proof.
  destruct x as [p|[]|], y as [q|[]|]; simpl; try done. intros _ _.
  destruct (float_eq p q) eqn:E, (float_lt p q) eqn:L1, (float_lt q p) eqn:L2;
    simpl; try done; float_order; first [lra | destruct E; lra].
Qed.

Lemma pyfloat_eq_lt (x y z : pyfloat) :
  pyfloat_eq z x = true → pyfloat_eq z y = true → pyfloat_lt y x = false.
Proof.
  destruct x as [p|[]|], y as [q|[]|], z as [r|[]|]; simpl; try done.
  intros. float_order. lra.
Qed.

(** On tuples free of NaN the order of Python is the lexicographic one. *)
Lemma tuple2_lt_lex (x y : pyfloat * pyfloat) :
  nan_free2 x → nan_free2 y →
  tuple2_lt x y =
  pyfloat_lt x.1 y.1 || (negb (pyfloat_lt y.1 x.1) && pyfloat_lt x.2 y.2).
Proof.
  intros [Hx1 Hx2] [Hy1 Hy2]. unfold tuple2_lt.
  rewrite !pyfloat_eq_spec by done.
  destruct (pyfloat_lt x.1 y.1) eqn:L1, (pyfloat_lt y.1 x.1) eqn:L2,
    (pyfloat_lt x.2 y.2) eqn:L3, (pyfloat_lt y.2 x.2) eqn:L4; try done.
  all: by rewrite (pyfloat_lt_asym _ _ L3) in L4.
Qed.

Lemma tuple2_lt_asym (x y : pyfloat * pyfloat) :
  nan_free2 x → nan_free2 y →
  tuple2_lt x y = true → tuple2_lt y x = false.
Proof.
  intros Hx Hy. rewrite !tuple2_lt_lex by done.
  destruct (pyfloat_lt x.1 y.1) eqn:L1, (pyfloat_lt y.1 x.1) eqn:L2,
    (pyfloat_lt x.2 y.2) eqn:L3, (pyfloat_lt y.2 x.2) eqn:L4; try done.
  all: first [ by rewrite (pyfloat_lt_asym _ _ L1) in L2
             | by rewrite (pyfloat_lt_asym _ _ L3) in L4 ].
Qed.

Lemma tuple2_le_trans (x y z : pyfloat * pyfloat) :
  nan_free2 x → nan_free2 y → nan_free2 z →
  tuple2_lt y x = false → tuple2_lt z y = false → tuple2_lt z x = false.
Proof.
  intros [Hx1 Hx2] [Hy1 Hy2] [Hz1 Hz2]. rewrite !tuple2_lt_lex by done.
  pose proof (pyfloat_le_trans x.1 y.1 z.1 Hx1 Hy1 Hz1) as T1.
  pose proof (pyfloat_le_trans y.1 z.1 x.1 Hy1 Hz1 Hx1) as T2.
  pose proof (pyfloat_le_trans z.1 x.1 y.1 Hz1 Hx1 Hy1) as T3.
  pose proof (pyfloat_le_trans x.2 y.2 z.2 Hx2 Hy2 Hz2) as T4.
  destruct (pyfloat_lt y.1 x.1), (pyfloat_lt x.1 y.1), (pyfloat_lt z.1 y.1),
    (pyfloat_lt y.1 z.1), (pyfloat_lt z.1 x.1), (pyfloat_lt x.1 z.1),
    (pyfloat_lt y.2 x.2), (pyfloat_lt z.2 y.2), (pyfloat_lt z.2 x.2);
    simpl; try done; intros _ _;
    first [by apply T1 | by apply T2 | by apply T3 | by apply T4
          | by discriminate T1 | by discriminate T2 | by discriminate T3 ].
Qed.

Lemma tuple2_lt_false (x y : pyfloat * pyfloat) :
  nan_free2 x → nan_free2 y →
  tuple2_lt y x = false ↔ tuple2_le x y.
Proof.
  intros [Hx1 Hx2] [Hy1 Hy2]. rewrite tuple2_lt_lex by done.
  unfold tuple2_le, pyfloat_le. rewrite !pyfloat_eq_spec by done.
  pose proof (pyfloat_lt_asym x.1 y.1) as A1.
  pose proof (pyfloat_lt_asym x.2 y.2) as A2.
  destruct (pyfloat_lt y.1 x.1), (pyfloat_lt x.1 y.1), (pyfloat_lt y.2 x.2),
    (pyfloat_lt x.2 y.2); simpl; split; try done; try tauto;
    try (by discriminate A1); try (by discriminate A2).
  all: try (intros _; right; done).
  all: try (intros _; left; done).
  all: try (intros [[]|[[] ?]]).
  all: try (intros [[]|[? []]]).
Qed.

(** Neither tuple comes before the other exactly when they are equal field
    by field. *)
Lemma tuple2_eq_spec (x y : pyfloat * pyfloat) :
  nan_free2 x → nan_free2 y →
  negb (tuple2_lt x y) && negb (tuple2_lt y x) = tuple2_eq x y.
Proof.
  intros [Hx1 Hx2] [Hy1 Hy2]. rewrite !tuple2_lt_lex by done.
  unfold tuple2_eq. rewrite !pyfloat_eq_spec by done.
  by destruct (pyfloat_lt y.1 x.1), (pyfloat_lt x.1 y.1), (pyfloat_lt y.2 x.2),
    (pyfloat_lt x.2 y.2).
Qed.

Lemma tuple2_eqv_lt (x y z : pyfloat * pyfloat) :
  nan_free2 x → nan_free2 y → nan_free2 z →
  negb (tuple2_lt z x) && negb (tuple2_lt x z) →
  negb (tuple2_lt z y) && negb (tuple2_lt y z) →
  tuple2_lt y x = false.
Proof.
  intros Hx Hy Hz. rewrite !tuple2_eq_spec by done. unfold tuple2_eq.
  intros [E1%Is_true_true E2%Is_true_true]%andb_True.
  intros [E3%Is_true_true E4%Is_true_true]%andb_True.
  rewrite tuple2_lt_lex by done.
  by rewrite (pyfloat_eq_lt _ _ _ E1 E3), (pyfloat_eq_lt _ _ _ E2 E4),
    andb_false_r.
Qed.

(** A tuple with a NaN is equal to no tuple. *)
Lemma tuple2_eq_nan (e y : pyfloat * pyfloat) :
  ¬ nan_free2 e → tuple2_eq e y = false.
Proof.
  unfold nan_free2, tuple2_eq. destruct e as [[p|b|] [q|c|]]; simpl;
    intros Hn; try done; try (by rewrite andb_false_r); by destruct Hn.
Qed.

Lemma nan_free2_dec (e : pyfloat * pyfloat) : nan_free2 e ∨ ¬ nan_free2 e.
Proof.
  unfold nan_free2.
  destruct e as [[p|b|] [q|c|]]; simpl; first [by left | right; by intros [? ?]].
Qed.

Lemma sorted_tuple2_stable (z : pyfloat * pyfloat) (l : list (pyfloat * pyfloat)) :
  Forall nan_free2 l →
  filter (λ y, tuple2_eq z y) (sorted tuple2_lt l) = filter (λ y, tuple2_eq z y) l.
Proof.
  intros Hl. destruct (nan_free2_dec z) as [Hz|Hz].
  - pose proof (sorted_stable tuple2_lt nan_free2 tuple2_eqv_lt z l Hz Hl) as S.
    assert (∀ l', Forall nan_free2 l' →
              filter (λ y, tuple2_eq z y) l'
              = filter (λ y, negb (tuple2_lt z y) && negb (tuple2_lt y z)) l')
      as F.
    { intros l' Hl'. induction Hl' as [|y l' Hy _ IH]; [done |].
      rewrite !filter_cons, IH. by rewrite tuple2_eq_spec. }
    rewrite !F; [done | done |].
    apply Forall_forall. intros y Hy. rewrite sorted_perm in Hy.
    by eapply Forall_forall in Hl.
  - assert (∀ l', filter (λ y, tuple2_eq z y) l' = []) as F.
    { intros l'. induction l' as [|y l' IH]; [done |].
      rewrite filter_cons, IH. by rewrite tuple2_eq_nan. }
    by rewrite !F.
Qed.

(** ** Timing lists are sorted by the whole tuple *)

Section TimingSorted.
Context `{Builtins}.

Lemma parse_pairs_sorted (tag content : string) (l : list (pyfloat * pyfloat)) :
  _parse_pairs tag content = Ok l →
  Forall nan_free2 l →
  ∃ entries,
    pair_entries tag content = Ok entries ∧
    l ≡ₚ entries ∧
    StronglySorted tuple2_le l ∧
    StronglySorted (λ x y, pyfloat_le x.1 y.1) l ∧
    ∀ e, filter (λ y, tuple2_eq e y) l = filter (λ y, tuple2_eq e y) entries.
Proof.
  unfold _parse_pairs.
  destruct (pair_entries tag content) as [entries|]; simpl; [|discriminate].
  intros [= <-] Hl. exists entries.
  assert (Forall nan_free2 entries) as He.
  { apply Forall_forall. intros y Hy.
    rewrite <- (sorted_perm tuple2_lt) in Hy. by eapply Forall_forall in Hl. }
  assert (StronglySorted tuple2_le (sorted tuple2_lt entries)) as S.
  { pose proof (sorted_sorted tuple2_lt nan_free2 tuple2_lt_asym
                  tuple2_le_trans entries He) as S.
    revert S Hl. generalize (sorted tuple2_lt entries). intros s S.
    induction S as [|x s Hs IH Hx]; [constructor |].
    intros [Px Ps]%Forall_cons. constructor; [by apply IH |].
    apply Forall_forall. intros y Hy. apply tuple2_lt_false.
    - done.
    - by eapply Forall_forall in Ps.
    - by eapply Forall_forall in Hx. }
  split_and!; [done | apply sorted_perm | exact S | |
               intros e; by apply sorted_tuple2_stable].
  eapply StronglySorted_weaken; [|exact S].
  intros x y [L|[E _]]; unfold pyfloat_le.
  - by rewrite (Is_true_true_1 _ L).
  - rewrite (Is_true_true_1 _ E). by rewrite orb_true_r.
Qed.

Lemma speed_entries_eq (content : string) :
  speed_entries content =
  match re_search_tag "SPEEDS" content with
  | Some speed_data =>
      if existsb (contains "=") (split "," (strip speed_data))
      then Raise ValueError else Ok []
  | None => Ok []
  end.
Proof.
  unfold speed_entries.
  destruct (re_search_tag "SPEEDS" content) as [speed_data|]; [|done].
  by rewrite for_each_speed_entry by (intros e; apply split_no_sep).
Qed.

Lemma parse_speeds_Ok (content : string) (l : list (pyfloat * pyfloat * pyfloat)) :
  _parse_speeds content = Ok l → l = [] ∧ speed_entries content = Ok [].
Proof.
  unfold _parse_speeds. rewrite speed_entries_eq.
  destruct (re_search_tag "SPEEDS" content); [destruct (existsb _ _) |];
    simpl; by intros [= <-].
Qed.

End TimingSorted.

(** C6, as amended.  Whenever a parser of a two-field timing list returns a
    list with no NaN among its fields, the list is a permutation of the
    entries read, sorted in the order of Python on whole tuples:
    non-decreasing by beat, and entries with equal beats in non-decreasing
    order of their value field, whatever their order in the text.  Entries
    equal in every field keep their input order.  The same holds of the
    speed list whenever its parser returns, the list being empty then. *)
Theorem timing_lists_sorted_by_whole_tuple (B : Builtins) (content : string) :
  (∀ tag parse l,
     (tag, parse) ∈ two_field_parsers →
     parse content = Ok l →
     Forall nan_free2 l →
     ∃ entries,
       pair_entries tag content = Ok entries ∧
       l ≡ₚ entries ∧
       StronglySorted (λ x y, pyfloat_le x.1 y.1) l ∧
       StronglySorted tuple2_le l ∧
       ∀ e, filter (λ y, tuple2_eq e y) l = filter (λ y, tuple2_eq e y) entries) ∧
  (∀ l,
     _parse_speeds content = Ok l →
     ∃ entries,
       speed_entries content = Ok entries ∧
       l ≡ₚ entries ∧
       StronglySorted (λ x y, pyfloat_le x.1.1 y.1.1) l ∧
       StronglySorted tuple3_le l ∧
       ∀ e, filter (λ y, tuple3_eq e y) l = filter (λ y, tuple3_eq e y) entries).
Proof.
  split.
  - intros tag parse l Hin Hl Hnan.
    assert (parse = _parse_pairs tag) as ->.
    { unfold two_field_parsers in Hin.
      repeat (apply elem_of_cons in Hin as [[= -> ->]|Hin]; [done |]).
      by apply elem_of_nil in Hin. }
    destruct (parse_pairs_sorted _ _ _ Hl Hnan) as (entries & ? & ? & ? & ? & ?).
    by exists entries.
  - intros l [-> He]%parse_speeds_Ok. exists [].
    split_and!; [done | done | constructor | constructor | done].
Qed.

Lemma timing_lists_sorted_by_whole_tuple_witness :
  let content := "#TITLE:a;#BPMS:4=1,0=200,0=100;#SPEEDS:none;" in
  let l := [(Finite 0, Finite 100); (Finite 0, Finite 200);
            (Finite 4, Finite 1)] in
  ("BPMS", @_parse_bpms Decimal.builtins) ∈ @two_field_parsers Decimal.builtins ∧
  @_parse_bpms Decimal.builtins content = Ok l ∧
  Forall nan_free2 l ∧
  StronglySorted (λ x y, pyfloat_le x.1 y.1) l ∧
  StronglySorted tuple2_le l ∧
  @_parse_speeds Decimal.builtins content = Ok [] ∧
  @speed_entries Decimal.builtins content = Ok [].
Proof.
  assert (("BPMS", @_parse_bpms Decimal.builtins)
            ∈ @two_field_parsers Decimal.builtins) as Hin by (by left).
  assert (@_parse_bpms Decimal.builtins
            "#TITLE:a;#BPMS:4=1,0=200,0=100;#SPEEDS:none;"
          = Ok [(Finite 0, Finite 100); (Finite 0, Finite 200);
                (Finite 4, Finite 1)]) as Hl by (vm_compute; reflexivity).
  assert (Forall nan_free2 [(Finite 0, Finite 100); (Finite 0, Finite 200);
                            (Finite 4, Finite 1)]) as Hnan
    by (repeat constructor; done).
  assert (@_parse_speeds Decimal.builtins
            "#TITLE:a;#BPMS:4=1,0=200,0=100;#SPEEDS:none;" = Ok []) as Hs
    by (vm_compute; reflexivity).
  destruct (timing_lists_sorted_by_whole_tuple Decimal.builtins
              "#TITLE:a;#BPMS:4=1,0=200,0=100;#SPEEDS:none;") as [T2 T3].
  destruct (T2 _ _ _ Hin Hl Hnan) as (entries & _ & _ & S1 & S2 & _).
  destruct (T3 _ Hs) as (entries3 & He & Hp & _).
  apply Permutation_nil_l in Hp as <-.
  exact (conj Hin (conj Hl (conj Hnan (conj S1 (conj S2 (conj Hs He)))))).
Defined.

(** C6, the claim as stated fails: two entries with the same beat come out
    ordered by their value field, not in their input order. *)
Lemma equal_beats_are_reordered_by_value :
  let content := "#BPMS:0=200,0=100;" in
  @pair_entries Decimal.builtins "BPMS" content
  = Ok [(Finite 0, Finite 200); (Finite 0, Finite 100)] ∧
  @_parse_bpms Decimal.builtins content
  = Ok [(Finite 0, Finite 100); (Finite 0, Finite 200)].
Proof. split; vm_compute; reflexivity. Qed.

(** ** Hold resolution *)

Lemma is_head_spec (n : Note) : is_head n = true ↔ head_kind (type n).
Proof.
  unfold is_head, head_kind.
  rewrite bool_decide_eq_true, !elem_of_cons, elem_of_nil. tauto.
Qed.

Lemma is_tail_spec (n : Note) : is_tail n = true ↔ tail_kind (type n).
Proof.
  unfold is_tail, tail_kind.
  rewrite bool_decide_eq_true, !elem_of_cons, elem_of_nil. tauto.
Qed.

Lemma resolve_head_middle (pre later : list Note) (n : Note) :
  resolve_head (pre ++ n :: later) (length pre) =
  pre ++ match find_tail n later with
         | Some t => set_hold_length n (beat t - beat n)%Q
         | None => n
         end :: later.
Proof.
  unfold resolve_head. rewrite list_lookup_middle by done.
  replace (drop (S (length pre)) (pre ++ n :: later)) with later.
  - destruct (find_tail n later) as [t|]; [|done].
    rewrite insert_app_r_alt by done. by rewrite Nat.sub_diag.
  - replace (pre ++ n :: later) with ((pre ++ [n]) ++ later)
      by (by rewrite <- app_assoc).
    rewrite (drop_app_length' (pre ++ [n])); [done |].
    rewrite length_app. simpl. lia.
Qed.

Lemma fold_resolve_head (pre later : list Note) :
  fold_left resolve_head (hold_heads_from (length pre) later) (pre ++ later)
  = pre ++ resolve_all later.
Proof.
  revert pre. induction later as [|n later IH]; intros pre; [done |].
  simpl. destruct (is_head n).
  - simpl. rewrite resolve_head_middle.
    set (n' := match find_tail n later with Some _ => _ | None => _ end).
    specialize (IH (pre ++ [n'])).
    rewrite length_app, Nat.add_1_r, <- !app_assoc in IH. exact IH.
  - specialize (IH (pre ++ [n])).
    rewrite length_app, Nat.add_1_r, <- !app_assoc in IH. exact IH.
Qed.

(** [_process_holds] computes the closed form. *)
Lemma process_holds_eq (notes : list Note) :
  _process_holds notes = resolve_all notes.
Proof. apply (fold_resolve_head [] notes). Qed.

Lemma find_tail_Some (head t : Note) (later : list Note) :
  find_tail head later = Some t →
  ∃ j, later !! j = Some t ∧ closes head t ∧
       ∀ k u, k < j → later !! k = Some u → ¬ closes head u.
Proof.
  induction later as [|x later IH]; simpl; [discriminate |].
  destruct (bool_decide (column x = column head) && is_tail x) eqn:E.
  - intros [= ->]. exists 0.
    apply andb_true_iff in E as [Hc%bool_decide_eq_true Ht%is_tail_spec].
    split_and!; [done | by split |]. intros k u Hk. lia.
  - intros (j & Hj & Hcl & Hfirst)%IH. exists (S j).
    split_and!; [done.. |]. intros [|k] u Hk; simpl.
    + intros [= <-] [Hc Ht]. apply andb_false_iff in E as [E|E].
      * by apply bool_decide_eq_false in E.
      * apply is_tail_spec in Ht. congruence.
    + apply Hfirst. lia.
Qed.

Lemma find_tail_None (head : Note) (later : list Note) :
  find_tail head later = None →
  ∀ k u, later !! k = Some u → ¬ closes head u.
Proof.
  induction later as [|x later IH]; simpl; [by intros _ k u |].
  destruct (bool_decide (column x = column head) && is_tail x) eqn:E;
    [discriminate |].
  intros Hn [|k] u; simpl; [|by apply IH].
  intros [= <-] [Hc Ht]. apply andb_false_iff in E as [E|E].
  - by apply bool_decide_eq_false in E.
  - apply is_tail_spec in Ht. congruence.
Qed.

Lemma resolve_all_lookup (notes : list Note) (i : nat) (n : Note) :
  notes !! i = Some n →
  resolve_all notes !! i =
  Some (if is_head n then
          match find_tail n (drop (S i) notes) with
          | Some t => set_hold_length n (beat t - beat n)%Q
          | None => n
          end
        else n).
Proof.
  revert i. induction notes as [|x notes IH]; intros [|i]; simpl; try done.
  - by intros [= ->].
  - apply IH.
Qed.

Lemma resolve_all_length (notes : list Note) :
  length (resolve_all notes) = length notes.
Proof. induction notes; simpl; congruence. Qed.

(** C3, as amended.  For notes as the grid parser builds them (hold length
    0), hold resolution leaves beat, column and kind of every note alone;
    a head of either family gets the beat distance to the first later note
    in its column that is a tail of either family (hold-tail or roll-tail,
    whatever the family of the head), and keeps hold length 0 when no later
    note in its column is a tail; every other note keeps hold length 0. *)
Theorem hold_resolution_pairs_with_first_tail_of_either_family
    (notes : list Note) (i : nat) (n : Note) :
  (∀ m, m ∈ notes → hold_length m = 0%Q) →
  notes !! i = Some n →
  ∃ n',
    _process_holds notes !! i = Some n' ∧
    beat n' = beat n ∧ column n' = column n ∧ type n' = type n ∧
    ((head_kind (type n) ∧
      ∃ j t, i < j ∧ notes !! j = Some t ∧ closes n t ∧
             (∀ k u, i < k < j → notes !! k = Some u → ¬ closes n u) ∧
             hold_length n' = (beat t - beat n)%Q)
     ∨ (head_kind (type n) ∧
        (∀ k u, i < k → notes !! k = Some u → ¬ closes n u) ∧
        hold_length n' = 0%Q)
     ∨ (¬ head_kind (type n) ∧ hold_length n' = 0%Q)).
Proof.
  intros Hzero Hi.
  assert (hold_length n = 0%Q) as Hn by (eapply Hzero, list_elem_of_lookup_2, Hi).
  rewrite process_holds_eq, (resolve_all_lookup _ _ _ Hi).
  destruct (is_head n) eqn:Hh.
  - apply is_head_spec in Hh.
    destruct (find_tail n (drop (S i) notes)) as [t|] eqn:Ht.
    + eexists. split_and!; [done.. |]. left. split; [done |].
      apply find_tail_Some in Ht as (j & Hj & Hcl & Hfirst).
      rewrite lookup_drop in Hj. exists (S i + j), t.
      split_and!; [lia | done | done | | done].
      intros k u [Hk1 Hk2] Hu. apply (Hfirst (k - S i) u); [lia |].
      rewrite lookup_drop. by replace (S i + (k - S i)) with k by lia.
    + eexists. split_and!; [done.. |]. right. left.
      split_and!; [done | | done].
      intros k u Hk Hu. apply (find_tail_None _ _ Ht (k - S i) u).
      rewrite lookup_drop. by replace (S i + (k - S i)) with k by lia.
  - eexists. split_and!; [done.. |]. right. right. split; [|done].
    intros Hk%is_head_spec. congruence.
Qed.

Lemma hold_resolution_pairs_with_first_tail_of_either_family_witness :
  let head := {| beat := 0; column := 0; type := "hold_head";
                 hold_length := 0; is_fake := false |} in
  let tail := {| beat := 2; column := 0; type := "roll_tail";
                 hold_length := 0; is_fake := false |} in
  (∀ m, m ∈ [head; tail] → hold_length m = 0%Q) ∧
  [head; tail] !! 0 = Some head ∧
  ∃ n', _process_holds [head; tail] !! 0 = Some n' ∧ type n' = "hold_head".
Proof.
  set (head := {| beat := 0; column := 0; type := "hold_head";
                  hold_length := 0; is_fake := false |}).
  set (tail := {| beat := 2; column := 0; type := "roll_tail";
                  hold_length := 0; is_fake := false |}).
  assert (∀ m, m ∈ [head; tail] → hold_length m = 0%Q) as Hz.
  { intros m [->| [->| []%elem_of_nil]%elem_of_cons]%elem_of_cons; reflexivity. }
  assert ([head; tail] !! 0 = Some head) as Hi by reflexivity.
  destruct (hold_resolution_pairs_with_first_tail_of_either_family
              [head; tail] 0 head Hz Hi) as (n' & Hn' & _ & _ & Ht & _).
  exact (conj Hz (conj Hi (ex_intro _ n' (conj Hn' Ht)))).
Defined.

(** C3, the claim as stated fails: a hold-head followed in its column by a
    roll-tail, with no hold-tail anywhere, ends with hold length 2, not 0. *)
Lemma hold_head_is_closed_by_roll_tail :
  let head := {| beat := 0; column := 0; type := "hold_head";
                 hold_length := 0; is_fake := false |} in
  let tail := {| beat := 2; column := 0; type := "roll_tail";
                 hold_length := 0; is_fake := false |} in
  (∀ t, t ∈ [head; tail] → type t ≠ "hold_tail") ∧
  hold_length <$> (_process_holds [head; tail] !! 0) = Some 2%Q ∧
  ¬ (2 == 0)%Q.
Proof.
  repeat split.
  - intros t [->| [->| []%elem_of_nil]%elem_of_cons]%elem_of_cons; done.
  - intros [=].
Qed.

(** ** The note grid *)


Lemma accepted_guard (row : string) :
  bool_decide (len row ∉ [4; 8]) = false ↔ accepted row.
Proof.
  unfold accepted. rewrite bool_decide_eq_false, !elem_of_cons, elem_of_nil.
  destruct (decide (len row = 4)), (decide (len row = 8)); tauto.
Qed.

(** The loops append: what they add does not depend on the notes so far. *)
Lemma parse_row_app (b : Q) (col : nat) (row : string) (notes : list Note) :
  parse_row b col row notes = notes ++ parse_row b col row [].
Proof.
  revert col notes. induction row as [|c row IH]; intros col notes; simpl.
  - by rewrite app_nil_r.
  - destruct (NOTE_TYPES !! String c "") as [kind|]; [|apply IH].
    destruct (bool_decide (String c "" ≠ "0")); [|apply IH].
    rewrite IH, (IH _ [_]). by rewrite app_assoc.
Qed.

Lemma parse_rows_app (cb bpr : Q) (idx : nat) (rows : list string)
    (notes : list Note) :
  parse_rows cb bpr idx rows notes = notes ++ parse_rows cb bpr idx rows [].
Proof.
  revert idx notes. induction rows as [|row rows IH]; intros idx notes; simpl.
  - by rewrite app_nil_r.
  - destruct (bool_decide (len row ∉ [4; 8])); [apply IH |].
    rewrite IH, (IH _ (parse_row _ _ _ _)), (parse_row_app _ _ _ notes).
    by rewrite app_assoc.
Qed.

Lemma parse_measures_segments (measures : list string) (cb : Q)
    (notes : list Note) :
  parse_measures measures cb notes
  = notes ++ concat (measure_segments measures cb).
Proof.
  revert cb notes.
  induction measures as [|measure measures IH]; intros cb notes.
  - simpl. by rewrite app_nil_r.
  - cbn [parse_measures measure_segments].
    destruct (rows_of measure) as [|row rows] eqn:R; cbn [concat].
    + apply IH.
    + rewrite IH, (parse_rows_app _ _ _ _ notes). by rewrite app_assoc.
Qed.

(** Columns and kinds. *)
Lemma symbol_at_eq (col : nat) (c : ascii) :
  symbol_at col c =
  match NOTE_TYPES !! String c "" with
  | Some kind =>
      if bool_decide (String c "" ≠ "0") then Some (col, kind) else None
  | None => None
  end.
Proof.
  unfold symbol_at. destruct (NOTE_TYPES !! String c ""); simpl; [|done].
  destruct (decide (String c "" = "0")) as [E|E].
  - rewrite (bool_decide_eq_true_2 _ E). by rewrite bool_decide_eq_false_2 by auto.
  - by rewrite (bool_decide_eq_false_2 _ E), (bool_decide_eq_true_2 _ E).
Qed.

Lemma parse_row_col_kind (b : Q) (col : nat) (row : string) :
  col_kind <$> parse_row b col row []
  = omap (λ p, symbol_at p.1 p.2)
         (imap (λ i c, (col + i, c)) (list_ascii_of_string row)).
Proof.
  revert col. induction row as [|c row IH]; intros col; [reflexivity |].
  cbn [parse_row list_ascii_of_string].
  rewrite imap_cons, parse_row_app, fmap_app, IH, Nat.add_0_r.
  change (omap ?f (?x :: ?l))
    with (match f x with Some y => y :: omap f l | None => omap f l end).
  cbn beta. cbn [fst snd]. rewrite symbol_at_eq.
  assert (imap ((λ i c0, (col + i, c0)) ∘ S) (list_ascii_of_string row)
          = imap (λ i c0, (S col + i, c0)) (list_ascii_of_string row)) as ->.
  { apply imap_ext. intros i x _. simpl. f_equal. lia. }
  destruct (NOTE_TYPES !! String c "") as [kind|]; [|done].
  by destruct (bool_decide (String c "" ≠ "0")).
Qed.

Lemma parse_rows_col_kind (cb bpr : Q) (idx : nat) (rows : list string) :
  col_kind <$> parse_rows cb bpr idx rows []
  = row ← rows; if bool_decide (accepted row) then row_symbols row else [].
Proof.
  revert idx. induction rows as [|row rows IH]; intros idx; [done |].
  cbn [parse_rows]. rewrite parse_rows_app, fmap_app, IH, bind_cons.
  f_equal. destruct (bool_decide (len row ∉ [4; 8])) eqn:G.
  - rewrite bool_decide_eq_false_2; [done |].
    intros Ha%accepted_guard. congruence.
  - apply accepted_guard in G. rewrite (bool_decide_eq_true_2 _ G).
    apply (parse_row_col_kind _ 0).
Qed.

Lemma measure_segments_col_kind (measures : list string) (cb : Q) :
  col_kind <$> concat (measure_segments measures cb)
  = measure ← measures; row ← rows_of measure;
    if bool_decide (accepted row) then row_symbols row else [].
Proof.
  revert cb. induction measures as [|measure measures IH]; intros cb; [done |].
  cbn [measure_segments]. rewrite bind_cons.
  destruct (rows_of measure) as [|row rows] eqn:R.
  - simpl. apply IH.
  - cbn [concat]. rewrite fmap_app, IH, parse_rows_col_kind. done.
Qed.

(** Hold resolution changes hold lengths only. *)
Lemma resolve_all_fmap {B} (f : Note → B) (notes : list Note) :
  (∀ n x, f (set_hold_length n x) = f n) →
  f <$> resolve_all notes = f <$> notes.
Proof.
  intros Hf. induction notes as [|n notes IH]; [done |].
  cbn [resolve_all fmap list_fmap]. fold (fmap f (resolve_all notes)).
  fold (fmap f notes). rewrite IH. f_equal.
  destruct (is_head n); [|done]. by destruct (find_tail n notes).
Qed.

(** What [_parse_notes] adds to [self.notes], seen through a projection
    that ignores hold lengths. *)
Lemma parse_notes_new {B} (f : Note → B) (notes_data : string)
    (self_notes : list Note) :
  (∀ n x, f (set_hold_length n x) = f n) →
  f <$> drop (length self_notes) (_parse_notes notes_data self_notes)
  = f <$> concat (measure_segments (split "," (strip notes_data)) 0%Q).
Proof.
  intros Hf. unfold _parse_notes.
  rewrite process_holds_eq, fmap_drop, (resolve_all_fmap f) by done.
  rewrite parse_measures_segments, fmap_app.
  rewrite drop_app_length'; [done | by rewrite length_fmap].
Qed.

Lemma parse_notes_col_kind (notes_data : string) (self_notes : list Note) :
  col_kind <$> drop (length self_notes) (_parse_notes notes_data self_notes)
  = measure ← split "," (strip notes_data); row ← rows_of measure;
    if bool_decide (accepted row) then row_symbols row else [].
Proof.
  rewrite (parse_notes_new col_kind) by done.
  apply measure_segments_col_kind.
Qed.

Lemma elem_of_row_symbols (row : string) (col : nat) (kind : string) :
  (col, kind) ∈ row_symbols row ↔
  ∃ c, list_ascii_of_string row !! col = Some c ∧
       NOTE_TYPES !! String c "" = Some kind ∧ String c "" ≠ "0".
Proof.
  unfold row_symbols. rewrite list_elem_of_omap. split.
  - intros ([i c] & (i' & c' & [= -> ->] & Hc)%elem_of_lookup_imap & Hs).
    rewrite symbol_at_eq in Hs. simpl in Hs.
    destruct (NOTE_TYPES !! String c' "") as [k|] eqn:Hk; [|done].
    destruct (decide (String c' "" ≠ "0")) as [E|E].
    + rewrite (bool_decide_eq_true_2 _ E) in Hs. injection Hs as <- <-.
      by exists c'.
    + by rewrite (bool_decide_eq_false_2 _ E) in Hs.
  - intros (c & Hc & Hk & E). exists (col, c). split.
    + apply elem_of_lookup_imap. by exists col, c.
    + rewrite symbol_at_eq; simpl. by rewrite Hk, (bool_decide_eq_true_2 _ E).
Qed.

(** C7, as amended.  [_parse_notes] never raises, and the columns and kinds
    of the notes it adds are, measure by measure and row by row, the symbols
    of the rows of 4 or of 8 characters; a row of any other length adds
    nothing.  The chart type plays no part: the parser does not receive it.
    A row's symbols are its characters that the table knows, other than
    ["0"], each with its index as column. *)
Theorem rows_of_4_or_8_characters_are_accepted
    (notes_data : string) (self_notes : list Note) :
  col_kind <$> drop (length self_notes) (_parse_notes notes_data self_notes)
  = (measure ← split "," (strip notes_data); row ← rows_of measure;
     if bool_decide (len row = 4 ∨ len row = 8) then row_symbols row else [])
  ∧ ∀ row col kind,
      (col, kind) ∈ row_symbols row ↔
      ∃ c, list_ascii_of_string row !! col = Some c ∧
           NOTE_TYPES !! String c "" = Some kind ∧ String c "" ≠ "0".
Proof.
  split; [apply parse_notes_col_kind | apply elem_of_row_symbols].
Qed.

(** C7, the claim as stated fails: in a singles chart a row of 8 characters
    is accepted, and yields a note in column 7. *)
Lemma row_of_8_characters_in_singles_chart_yields_notes :
  ∃ charts notes,
    @parse_sm_file Decimal.builtins
      "#NOTES:dance-single:d:Easy:1:0:10000001;" [] = Ok (charts, notes) ∧
    chart_type <$> charts = ["dance-single"] ∧
    col_kind <$> notes = [(0, "tap"); (7, "tap")].
Proof.
  eexists _, _. split; [vm_compute; reflexivity |]. split; reflexivity.
Qed.

(** ** The symbol table *)

Lemma NOTE_TYPES_values (key kind : string) :
  NOTE_TYPES !! key = Some kind → kind ≠ "hold_tail".
Proof.
  assert (map_Forall (λ _ v, v ≠ "hold_tail") NOTE_TYPES) as H
    by (apply map_Forall_to_list; compute_done).
  apply H.
Qed.

Lemma parse_notes_kinds (notes_data : string) (n : Note) :
  n ∈ _parse_notes notes_data [] → ∃ key, NOTE_TYPES !! key = Some (type n).
Proof.
  intros Hn.
  assert ((column n, type n) ∈ col_kind <$> drop (length (@nil Note))
            (_parse_notes notes_data [])) as Hc
    by (by apply (list_elem_of_fmap_2 col_kind)).
  rewrite parse_notes_col_kind in Hc.
  apply list_elem_of_bind in Hc as (measure & Hc & _).
  apply list_elem_of_bind in Hc as (row & Hc & _).
  destruct (bool_decide (accepted row)); [|by apply elem_of_nil in Hc].
  apply elem_of_row_symbols in Hc as (c & _ & Hk & _). eauto.
Qed.

(** C2.  The dictionary display writes the key ["3"] twice, so the table
    maps ["3"] to roll_tail only: no key maps to hold_tail, and the grid
    parser never builds a note of kind hold_tail, whatever the grid.  The
    claim asks for a grid symbol of every kind, hold_tail included. *)
Theorem hold_tail_is_never_produced :
  NOTE_TYPES !! "3" = Some "roll_tail" ∧
  (∀ key, NOTE_TYPES !! key ≠ Some "hold_tail") ∧
  (∀ notes_data, Forall (λ n, type n ≠ "hold_tail") (_parse_notes notes_data [])).
Proof.
  split_and!.
  - vm_compute. reflexivity.
  - intros key Hk. by apply NOTE_TYPES_values in Hk.
  - intros notes_data. apply Forall_forall. intros n Hn.
    apply parse_notes_kinds in Hn as [key Hk]. by eapply NOTE_TYPES_values.
Qed.

(** ** Beats *)

Lemma parse_row_beat (b : Q) (col : nat) (row : string) (n : Note) :
  n ∈ parse_row b col row [] → beat n = b.
Proof.
  revert col. induction row as [|c row IH]; intros col; simpl.
  - by intros ?%elem_of_nil.
  - rewrite parse_row_app. intros [Hn|Hn]%elem_of_app; [|by eapply IH].
    destruct (NOTE_TYPES !! String c ""); [|by apply elem_of_nil in Hn].
    destruct (bool_decide (String c "" ≠ "0")); [|by apply elem_of_nil in Hn].
    by apply list_elem_of_singleton in Hn as ->.
Qed.

Lemma parse_row_length (b : Q) (row : string) :
  length (parse_row b 0 row []) = length (row_symbols row).
Proof.
  rewrite <- (length_fmap col_kind). f_equal. apply (parse_row_col_kind _ 0).
Qed.

Lemma parse_rows_row_segments (cb bpr : Q) (idx : nat) (rows : list string) :
  parse_rows cb bpr idx rows [] = concat (row_segments cb bpr idx rows).
Proof.
  revert idx. induction rows as [|row rows IH]; intros idx; [done |].
  cbn [parse_rows row_segments concat]. rewrite parse_rows_app, IH. done.
Qed.

Lemma measure_segments_grid (measures : list string) (cb : Q) :
  measure_segments measures cb = flatten <$> grid_segments measures cb.
Proof.
  revert cb. induction measures as [|measure measures IH]; intros cb; [done |].
  cbn [measure_segments grid_segments].
  destruct (rows_of measure) as [|row rows];
    rewrite fmap_cons, IH; [done |].
  by rewrite parse_rows_row_segments.
Qed.

Lemma fmap_concat {A B} (f : A → B) (ls : list (list A)) :
  f <$> concat ls = concat (fmap (M:=list) f <$> ls).
Proof.
  induction ls as [|l ls IH]; [done |].
  cbn [concat]. rewrite fmap_app, IH. done.
Qed.

Lemma row_segments_length (cb bpr : Q) (idx : nat) (rows : list string) :
  length (row_segments cb bpr idx rows) = length rows.
Proof. revert idx. induction rows; intros idx; simpl; auto. Qed.

Lemma row_segments_lookup (cb bpr : Q) (idx r : nat) (rows : list string)
    (row : string) :
  rows !! r = Some row →
  row_segments cb bpr idx rows !! r =
  Some (if bool_decide (len row ∉ [4; 8]) then []
        else parse_row (cb + inject_Z (Z.of_nat (idx + r)) * bpr)%Q 0 row []).
Proof.
  revert idx r. induction rows as [|row0 rows IH]; intros idx [|r]; try done.
  - intros [= ->]. cbn [row_segments lookup list_lookup]. by rewrite Nat.add_0_r.
  - intros Hr. replace (idx + S r) with (S idx + r) by lia.
    exact (IH (S idx) r Hr).
Qed.

(** The running beat when the loop has passed some measures, [cb] being the
    beat before them. *)
Lemma grid_segments_length (measures : list string) (cb : Q) :
  length (grid_segments measures cb) = length measures.
Proof.
  revert cb. induction measures as [|measure measures IH]; intros cb; [done |].
  cbn [grid_segments]. destruct (rows_of measure); simpl; by rewrite IH.
Qed.

Lemma measures_with_rows_cons (measure : string) (measures : list string) :
  measures_with_rows (measure :: measures) =
  match rows_of measure with
  | [] => measures_with_rows measures
  | _ :: _ => S (measures_with_rows measures)
  end.
Proof.
  unfold measures_with_rows. rewrite filter_cons.
  destruct (rows_of measure) eqn:R.
  - by rewrite decide_False by (by intros ?).
  - by rewrite decide_True by done.
Qed.

Lemma grid_segments_lookup (measures : list string) (cb : Q) (i : nat)
    (measure : string) :
  measures !! i = Some measure →
  ∃ cb', (cb' == cb + 4 * inject_Z (Z.of_nat (measures_with_rows (take i measures))))%Q ∧
         grid_segments measures cb !! i =
         Some (row_segments cb'
                 (4 / inject_Z (Z.of_nat (length (rows_of measure))))%Q
                 0 (rows_of measure)).
Proof.
  revert cb i.
  induction measures as [|m measures IH]; intros cb [|i]; try done.
  - intros [= ->]. exists cb. split.
    + unfold measures_with_rows. simpl. ring.
    + cbn [grid_segments]. by destruct (rows_of measure).
  - intros Hi. cbn [lookup list_lookup] in Hi.
    rewrite firstn_cons, measures_with_rows_cons. cbn [grid_segments].
    destruct (rows_of m) as [|row rows].
    + destruct (IH cb i Hi) as (cb' & Hcb & Hl). by exists cb'.
    + destruct (IH (cb + 4)%Q i Hi) as (cb' & Hcb & Hl). exists cb'.
      split; [|done]. rewrite Hcb, Nat2Z.inj_succ, <- Z.add_1_r, inject_Z_plus.
      ring.
Qed.

Lemma row_offset_range (r n : nat) :
  r < n →
  (0 <= inject_Z (Z.of_nat r) * (4 / inject_Z (Z.of_nat n)) < 4)%Q.
Proof.
  intros Hr.
  assert (0 < inject_Z (Z.of_nat n))%Q as Hn
    by (rewrite <- (Zlt_Qlt 0); lia).
  assert (0 <= inject_Z (Z.of_nat r))%Q as Hr0
    by (rewrite <- (Zle_Qle 0); lia).
  assert (inject_Z (Z.of_nat r) < inject_Z (Z.of_nat n))%Q as Hrn
    by (rewrite <- Zlt_Qlt; lia).
  assert (inject_Z (Z.of_nat r) * (4 / inject_Z (Z.of_nat n))
          == 4 * (inject_Z (Z.of_nat r) / inject_Z (Z.of_nat n)))%Q as ->
    by (field; lra).
  assert (0 <= inject_Z (Z.of_nat r) / inject_Z (Z.of_nat n))%Q
    by (apply Qle_shift_div_l; [done | lra]).
  assert (inject_Z (Z.of_nat r) / inject_Z (Z.of_nat n) < 1)%Q
    by (apply Qlt_shift_div_r; [done | lra]).
  lra.
Qed.

Lemma parse_notes_beats (notes_data : string) (self_notes : list Note) :
  beat <$> drop (length self_notes) (_parse_notes notes_data self_notes)
  = concat (flatten <$>
      (fmap (M:=list) (fmap (M:=list) beat) <$> grid_segments (split "," (strip notes_data)) 0%Q)).
Proof.
  rewrite (parse_notes_new beat) by done.
  rewrite measure_segments_grid, fmap_concat. f_equal.
  rewrite <- !list_fmap_compose. apply list_fmap_ext. intros _ segs _. simpl.
  apply fmap_concat.
Qed.

(** C8, as amended.  The beats of the notes [_parse_notes] adds fall into
    one segment per measure and, within it, one per non-blank row.  A row of
    4 or of 8 characters has as many notes as it has symbols, any other row
    none.  With [k] the number of measures before measure [i] that have a
    non-blank row, and [n] the number of non-blank rows of measure [i], every
    note of row [r] has beat [4k + r * (4/n)], which lies in [4k, 4(k+1)):
    the running beat advances by 4 for each measure that has a non-blank
    row, whatever its row count, and a measure whose rows are all blank is
    passed over without advancing it. *)
Theorem measures_with_rows_advance_the_beat_by_4
    (notes_data : string) (self_notes : list Note) :
  let measures := split "," (strip notes_data) in
  ∃ segments : list (list (list Q)),
    beat <$> drop (length self_notes) (_parse_notes notes_data self_notes)
    = concat (flatten <$> segments) ∧
    length segments = length measures ∧
    ∀ i measure, measures !! i = Some measure →
      ∃ rows_beats,
        segments !! i = Some rows_beats ∧
        length rows_beats = length (rows_of measure) ∧
        ∀ r row, rows_of measure !! r = Some row →
          ∃ beats,
            rows_beats !! r = Some beats ∧
            length beats =
              (if bool_decide (len row = 4 ∨ len row = 8)
               then length (row_symbols row) else 0) ∧
            ∀ b, b ∈ beats →
              let k := inject_Z (Z.of_nat (measures_with_rows (take i measures))) in
              let n := inject_Z (Z.of_nat (length (rows_of measure))) in
              (b == 4 * k + inject_Z (Z.of_nat r) * (4 / n) ∧
               4 * k <= b < 4 * (k + 1))%Q.
Proof.
  intros measures.
  exists (fmap (M:=list) (fmap (M:=list) beat) <$> grid_segments measures 0%Q).
  split_and!.
  - apply parse_notes_beats.
  - by rewrite length_fmap, grid_segments_length.
  - intros i measure Hi.
    destruct (grid_segments_lookup measures 0%Q i measure Hi) as (cb & Hcb & Hl).
    eexists. rewrite list_lookup_fmap, Hl. split_and!; [done | |].
    { by rewrite length_fmap, row_segments_length. }
    intros r row Hr. eexists.
    rewrite list_lookup_fmap, (row_segments_lookup _ _ _ _ _ _ Hr).
    split_and!; [done | |].
    + rewrite length_fmap. destruct (bool_decide (len row ∉ [4; 8])) eqn:G.
      * rewrite bool_decide_eq_false_2; [done |].
        intros Ha%accepted_guard. congruence.
      * apply accepted_guard in G. rewrite (bool_decide_eq_true_2 _ G).
        apply parse_row_length.
    + intros b Hb. destruct (bool_decide (len row ∉ [4; 8])).
      { by apply elem_of_nil in Hb. }
      apply list_elem_of_fmap in Hb as (n & -> & Hn).
      apply parse_row_beat in Hn as ->. simpl.
      pose proof (row_offset_range r (length (rows_of measure))
                    (lookup_lt_Some _ _ _ Hr)) as Hrange.
      rewrite Hcb. split; [ring | lra].
Qed.

(** C8, the claim as stated fails: a measure without rows does not advance
    the beat.  The third measure (index 2) starts at beat 4, below 8. *)
Lemma blank_measure_does_not_advance_the_beat :
  split "," (strip "1000,,0100") = ["1000"; ""; "0100"] ∧
  beat <$> _parse_notes "1000,,0100" [] = [0; 4]%Q ∧
  ¬ (4 * 2 <= 4)%Q.
Proof.
  split_and!; [reflexivity | vm_compute; reflexivity |].
  intros H. by vm_compute in H.
Qed.

(** ** The canvas *)

(** C4.  The width of the image is computed from the length of the kind
    string of the first note ([len(chart_data['notes'][0].type)]), not from
    the chart type: whenever the chart has a note, the width is
    [2 * 40 + len(kind) * 24].  A singles chart whose first note is a tap is
    152 wide (3 columns' worth), where 4 columns give 176; a doubles chart
    whose first note is a hold head is 296 wide, where 8 columns give 272. *)
Theorem width_is_computed_from_kind_of_first_note :
  (∀ metadata chart_type note notes measures,
     ∃ height,
       generate_visualization
         {| chart_metadata := metadata; chart_notes := Some (note :: notes);
            chart_type := chart_type |} measures
       = Ok ((40 * 2 + Z.of_nat (len (type note)) * 24)%Z, height)) ∧
  (∀ metadata,
     generate_visualization
       {| chart_metadata := metadata;
          chart_notes := Some [{| beat := 0; column := 0; type := "tap";
                                  hold_length := 0; is_fake := false |}];
          chart_type := "dance-single" |} (Some 1%Z)
     = Ok (152, 320)%Z ∧
     generate_visualization
       {| chart_metadata := metadata;
          chart_notes := Some [{| beat := 0; column := 0; type := "hold_head";
                                  hold_length := 0; is_fake := false |}];
          chart_type := "dance-double" |} (Some 1%Z)
     = Ok (296, 320)%Z) ∧
  (40 * 2 + 4 * 24 = 176 ∧ 40 * 2 + 8 * 24 = 272)%Z.
Proof.
  split_and!; try reflexivity.
  - intros metadata chart_type note notes measures.
    unfold generate_visualization, py_max. cbn [chart_notes fmap list_fmap].
    destruct measures as [m|]; [destruct (bool_decide (m ≠ 0%Z)) |];
      simpl; eexists; reflexivity.
  - intros metadata. split; reflexivity.
Qed.

(** C5.  Rendering a chart whose note list is empty raises: with no measure
    limit [max] is applied to an empty sequence ([ValueError]); with a limit
    the first note is indexed in an empty list ([IndexError]).  There is no
    fallback. *)
Theorem rendering_an_empty_chart_raises :
  ∀ metadata chart_type,
    let chart := {| chart_metadata := metadata; chart_notes := Some [];
                    chart_type := chart_type |} in
    generate_visualization chart None = Raise ValueError ∧
    generate_visualization chart (Some 0%Z) = Raise ValueError ∧
    generate_visualization chart (Some 4%Z) = Raise IndexError.
Proof. intros metadata chart_type. split_and!; reflexivity. Qed.

(** ** One note list for all sections *)

Section SharedNotes.
Context `{Builtins}.

Lemma parse_section_chart_notes (base : ChartMetadata) (section : NotesSection)
(charts charts' : list Chart) (notes notes' : list Note) :
parse_section base section (charts, notes) = Ok (charts', notes') →
Forall (λ c, chart_notes c = None) charts →
Forall (λ c, chart_notes c = None) charts'.
Proof.
unfold parse_section.
destruct (bool_decide _); [by intros [= <- <-] |].
destruct (int _) as [m|]; simpl; [|discriminate].
intros [= <- <-] Hc. apply Forall_app. split; [done |].
by constructor.
Qed.

Lemma for_each_parse_section (base : ChartMetadata)
(sections : list NotesSection)
(charts charts' : list Chart) (notes notes' : list Note) :
for_each (parse_section base) sections (charts, notes) = Ok (charts', notes') →
Forall (λ c, chart_notes c = None) charts →
Forall (λ c, chart_notes c = None) charts'.
Proof.
revert charts notes.
induction sections as [|section sections IH]; intros charts notes;
cbn [for_each].
- by intros [= <- <-].
- destruct (parse_section base section (charts, notes)) as [[c1 n1]|] eqn:E;
cbn [bind]; [|discriminate].
intros Hrest Hc. eapply IH; [exact Hrest |].
by eapply parse_section_chart_notes.
Qed.

Lemma parse_sm_file_chart_notes (content : string) (self_notes : list Note) :
match parse_sm_file content self_notes with
| Ok (charts, _) => Forall (λ c, chart_notes c = None) charts
| Raise _ => True
end.
Proof.
unfold parse_sm_file.
destruct (_parse_bpms content); simpl; [|done].
destruct (_parse_stops content); simpl; [|done].
destruct (_parse_warps content); simpl; [|done].
destruct (_parse_fakes content); simpl; [|done].
destruct (_parse_speeds content); simpl; [|done].
destruct (_parse_scrolls content); simpl; [|done].
destruct (for_each _ _ _) as [[charts notes]|] eqn:E; [|done].
eapply for_each_parse_section; [exact E | constructor].
Qed.

End SharedNotes.

(** C1.  [_parse_notes] appends to the one list [self.notes] and returns
    nothing, so every chart [parse_sm_file] returns has [None] under
    ['notes'], and the notes of all sections sit together in [self.notes].
    On a file with two singles sections, the first holding a hold head in
    column 0 and the second a tail in column 0 at beat 2, [self.notes] ends
    with both notes and the head of the first section is paired with the
    tail of the second (hold length 2); rendering the charts then raises
    [TypeError].  The claim asks for one note sequence per chart, disjoint
    from the others. *)
Theorem sections_share_one_note_list :
  (∀ (B : Builtins) content self_notes,
     match parse_sm_file content self_notes with
     | Ok (charts, _) => Forall (λ c, chart_notes c = None) charts
     | Raise _ => True
     end) ∧
  let content :=
    "#BPMS:0=120;#NOTES:dance-single:a:Easy:1:0:2000;#NOTES:dance-single:b:Hard:7:0:0000
0000
3000
0000;" in
  (∃ charts,
     @parse_sm_file Decimal.builtins content [] =
       Ok (charts,
           [ {| beat := 0; column := 0; type := "hold_head";
                hold_length := 8 # 4; is_fake := false |};
             {| beat := 8 # 4; column := 0; type := "roll_tail";
                hold_length := 0; is_fake := false |} ]) ∧
     (λ c, (difficulty (chart_metadata c), chart_notes c)) <$> charts
     = [("Easy", None); ("Hard", None)]) ∧
  @process_sm_file Decimal.builtins content None = Raise TypeError.
Proof.
  split; [|cbv zeta; split].
  - intros B content self_notes. apply parse_sm_file_chart_notes.
  - eexists. split; [vm_compute; reflexivity | reflexivity].
  - vm_compute. reflexivity.
Qed.

(** * Further properties *)

(** ** Tags *)

Lemma lstrip_idem (s : string) : lstrip (lstrip s) = lstrip s.
Proof.
  induction s as [|c s IH]; [done |]. simpl.
  destruct (isspace c) eqn:E; [done |]. simpl. by rewrite E.
Qed.

Lemma rstrip_idem (s : string) : rstrip (rstrip s) = rstrip s.
Proof.
  induction s as [|c s IH]; [done |]. simpl.
  destruct (rstrip s) as [|d r] eqn:R.
  - destruct (isspace c) eqn:E; [done |]. simpl. by rewrite E.
  - change (rstrip (String c (String d r)))
      with (match rstrip (String d r) with
            | EmptyString => if isspace c then EmptyString else String c EmptyString
            | String a b => String c (String a b)
            end).
    by rewrite IH.
Qed.

Lemma lstrip_rstrip (s : string) : lstrip (rstrip (lstrip s)) = rstrip (lstrip s).
Proof.
  induction s as [|c s IH]; [done |]. simpl.
  destruct (isspace c) eqn:E; [done |]. simpl.
  destruct (rstrip s); rewrite ?E; simpl; by rewrite E.
Qed.

Lemma strip_idem (s : string) : strip (strip s) = strip s.
Proof. unfold strip. by rewrite lstrip_rstrip, rstrip_idem. Qed.

Lemma contains_lstrip (c : ascii) (s : string) :
  contains c s = false → contains c (lstrip s) = false.
Proof.
  induction s as [|d s IH]; [done |]. simpl.
  intros [? ?]%orb_false_iff. destruct (isspace d); [auto |].
  simpl. apply orb_false_iff. auto.
Qed.

Lemma contains_rstrip (c : ascii) (s : string) :
  contains c s = false → contains c (rstrip s) = false.
Proof.
  induction s as [|d s IH]; [done |]. simpl.
  intros [Hd Hs]%orb_false_iff. specialize (IH Hs).
  destruct (rstrip s) as [|e r].
  - destruct (isspace d); [done |]. simpl. by rewrite Hd.
  - simpl in *. by rewrite Hd, IH.
Qed.

Lemma contains_strip (c : ascii) (s : string) :
  contains c s = false → contains c (strip s) = false.
Proof. intros H. by apply contains_rstrip, contains_lstrip. Qed.

Lemma re_search_tag_no_semicolon (tag content body : string) :
  re_search_tag tag content = Some body → contains ";" body = false.
Proof.
  induction content as [|c content IH]; rewrite re_search_tag_eq;
    (destruct (after_prefix _ _) as [rest|];
     [destruct (until ";" rest) as [[b r]|] eqn:U; simpl;
      [intros [= <-]; by apply until_Some in U as [_ ?] |] |]);
    try discriminate; apply IH.
Qed.

(** X1.  For a tag made of word characters, [_extract_tag] returns a text
    that is already stripped and holds no [;]; it is non-empty only when a
    block of the tag occurs. *)
Theorem extract_tag_is_trimmed (content tag : string) :
  word_tag tag = true →
  strip (_extract_tag content tag) = _extract_tag content tag ∧
  contains ";" (_extract_tag content tag) = false ∧
  (_extract_tag content tag ≠ "" → tag_block_occurs tag content).
Proof.
  intros _. unfold _extract_tag.
  destruct (re_search_tag tag content) as [g|] eqn:E; [|done].
  split_and!.
  - apply strip_idem.
  - apply contains_strip. by eapply re_search_tag_no_semicolon.
  - intros _. by eapply re_search_tag_occurs.
Qed.

Lemma extract_tag_is_trimmed_witness :
  word_tag "TITLE" = true ∧
  _extract_tag "#ARTIST:x;#TITLE: My Song ;" "TITLE" = "My Song" ∧
  tag_block_occurs "TITLE" "#ARTIST:x;#TITLE: My Song ;".
Proof.
  pose proof (extract_tag_is_trimmed "#ARTIST:x;#TITLE: My Song ;" "TITLE"
                eq_refl) as (_ & _ & H).
  exact (conj eq_refl (conj eq_refl (H ltac:(discriminate)))).
Defined.

Lemma until_app (c : ascii) (body rest : string) :
  contains c body = false →
  until c (body +:+ String c rest) = Some (body, rest).
Proof.
  induction body as [|d body IH].
  - intros _. change (until c (String c rest) = Some ("", rest)). simpl.
    by rewrite (proj2 (ascii_eqb_true c c) eq_refl).
  - simpl contains. intros [Hd Hb]%orb_false_iff.
    rewrite string_app_cons. cbn [until]. by rewrite Hd, (IH Hb).
Qed.

Lemma find_eq (sub s : string) :
  find sub s =
  match after_prefix sub s with
  | Some _ => Some 0
  | None =>
      match s with
      | EmptyString => None
      | String _ s' => S <$> find sub s'
      end
  end.
Proof. by destruct s. Qed.

(** The search stops at the first block of the tag. *)
Lemma re_search_tag_first (tag pre body post content : string) :
  first_block tag pre body post content →
  re_search_tag tag content = Some body.
Proof.
  intros (-> & Hfind & Hbody). unfold opening in *.
  induction pre as [|c pre IH]; rewrite re_search_tag_eq.
  - rewrite string_app_nil.
    assert (after_prefix ("#" +:+ tag +:+ ":")
              (("#" +:+ tag +:+ ":") +:+ body +:+ ";" +:+ post)
            = Some (body +:+ ";" +:+ post)) as ->
      by by apply after_prefix_Some.
    change (";" +:+ post) with (String ";" post).
    by rewrite until_app.
  - rewrite find_eq in Hfind. rewrite (string_app_cons c pre) in *.
    destruct (after_prefix ("#" +:+ tag +:+ ":") (String c _)); [done |].
    apply IH. destruct (find _ _) as [n|]; [|done].
    simpl in Hfind. by injection Hfind as ->.
Qed.

(** A text with no [#] before the block: the block is the first. *)
Lemma first_block_no_hash (tag pre body post : string) :
  contains "#" pre = false →
  contains ";" body = false →
  first_block tag pre body post
    (pre +:+ opening tag +:+ body +:+ ";" +:+ post).
Proof.
  intros Hpre Hbody. split_and!; [done | | done]. unfold opening.
  induction pre as [|c pre IH]; rewrite find_eq.
  - rewrite string_app_nil.
    by rewrite (proj2 (after_prefix_Some _ _ (body +:+ ";" +:+ post)) eq_refl).
  - simpl in Hpre. apply orb_false_iff in Hpre as [Hc Hpre].
    rewrite (string_app_cons c pre).
    change (after_prefix ("#" +:+ tag +:+ ":") (String c ?s))
      with (if Ascii.eqb "#" c then after_prefix (tag +:+ ":") s else None).
    destruct (Ascii.eqb "#" c) eqn:E.
    + apply Ascii.eqb_eq in E as <-. by rewrite Ascii.eqb_refl in Hc.
    + by rewrite (IH Hpre).
Qed.

(** X2.  The first block of a tag decides: when the text holds a block of a
    tag made of word characters, and the literal [#TAG:] occurs nowhere
    before it, [_extract_tag] returns the stripped body of that block,
    whatever comes before and after it (other tags, a second block of the
    same tag). *)
Theorem extract_tag_reads_first_block (tag pre body post content : string) :
  word_tag tag = true →
  first_block tag pre body post content →
  _extract_tag content tag = strip body.
Proof.
  intros _ Hfirst. unfold _extract_tag.
  by rewrite (re_search_tag_first _ _ _ _ _ Hfirst).
Qed.

Lemma extract_tag_reads_first_block_witness :
  word_tag "TITLE" = true ∧
  first_block "TITLE" "#ARTIST:x;" " My Song " "#TITLE:Other;"
    "#ARTIST:x;#TITLE: My Song ;#TITLE:Other;" ∧
  _extract_tag "#ARTIST:x;#TITLE: My Song ;#TITLE:Other;" "TITLE" = "My Song".
Proof.
  assert (first_block "TITLE" "#ARTIST:x;" " My Song " "#TITLE:Other;"
            "#ARTIST:x;#TITLE: My Song ;#TITLE:Other;") as Hfirst
    by (split_and!; reflexivity).
  pose proof (extract_tag_reads_first_block "TITLE" "#ARTIST:x;" " My Song "
                "#TITLE:Other;" _ eq_refl Hfirst) as H.
  exact (conj eq_refl (conj Hfirst H)).
Defined.

(** ** Timing lists: errors and well-formed input *)

Section TimingMore.
Context `{Builtins}.

Lemma float_raises (s : string) (e : exn) : float s = Raise e → e = ValueError.
Proof. unfold float. destruct (py_float s); congruence. Qed.

Lemma int_raises (s : string) (e : exn) : int s = Raise e → e = ValueError.
Proof. unfold int. destruct (py_int s); congruence. Qed.

Lemma pair_entry_raises (entry : string) (acc : list (pyfloat * pyfloat))
    (e : exn) :
pair_entry entry acc = Raise e → e = ValueError.
Proof.
unfold pair_entry. destruct (contains "=" entry); [|discriminate].
destruct (split "=" entry) as [|beat [|value [|x l]]]; try congruence.
destruct (float beat) eqn:Fb; simpl; [|by intros [= <-]; eapply float_raises].
destruct (float value) eqn:Fv; simpl; [discriminate |].
intros [= <-]. by eapply float_raises.
Qed.

Lemma pair_entry_length (entry : string) (acc l : list (pyfloat * pyfloat)) :
pair_entry entry acc = Ok l →
length l = length acc + (if contains "=" entry then 1 else 0).
Proof.
unfold pair_entry. destruct (contains "=" entry); [|intros [= <-]; lia].
destruct (split "=" entry) as [|beat [|value [|x l']]]; try discriminate.
destruct (float beat); simpl; [|discriminate].
destruct (float value); simpl; [|discriminate].
intros [= <-]. rewrite length_app. simpl. lia.
Qed.

Lemma for_each_raises {A S} (body : A → S → result S) (l : list A) (s : S)
(e : exn) :
(∀ x s e, body x s = Raise e → e = ValueError) →
for_each body l s = Raise e → e = ValueError.
Proof.
intros Hbody. revert s. induction l as [|x l IH]; intros s; cbn [for_each].
- discriminate.
- destruct (body x s) as [s'|e'] eqn:E; cbn [bind]; [apply IH |].
intros [= <-]. by eapply Hbody.
Qed.

Lemma for_each_pair_entry_length (entries : list string)
    (acc l : list (pyfloat * pyfloat)) :
for_each pair_entry entries acc = Ok l →
length l = length acc + length (filter (λ e, contains "=" e) entries).
Proof.
revert acc. induction entries as [|e entries IH]; intros acc; cbn [for_each].
- intros [= <-]. simpl. lia.
- destruct (pair_entry e acc) as [acc'|] eqn:E; cbn [bind]; [|discriminate].
intros Hl. rewrite (IH _ Hl), (pair_entry_length _ _ _ E), filter_cons.
destruct (contains "=" e); simpl; lia.
Qed.

Lemma parse_pairs_raises (tag content : string) (e : exn) :
_parse_pairs tag content = Raise e → e = ValueError.
Proof.
unfold _parse_pairs, pair_entries.
destruct (re_search_tag tag content) as [data|]; [|discriminate].
destruct (for_each _ _ _) eqn:E; cbn [bind]; [discriminate |].
intros [= <-]. eapply for_each_raises; [|exact E].
intros x s e'. apply pair_entry_raises.
Qed.

Lemma parse_speeds_raises (content : string) (e : exn) :
_parse_speeds content = Raise e → e = ValueError.
Proof.
rewrite parse_speeds_eq.
destruct (re_search_tag "SPEEDS" content); [destruct (existsb _ _) |];
congruence.
Qed.

Lemma parse_section_raises (base : ChartMetadata) (section : NotesSection)
(st : list Chart * list Note) (e : exn) :
parse_section base section st = Raise e → e = ValueError.
Proof.
unfold parse_section. destruct st as [charts notes].
destruct (bool_decide _); [discriminate |].
destruct (int _) eqn:E; cbn [bind]; [discriminate |].
intros [= <-]. by eapply int_raises.
Qed.

Lemma parse_sm_file_raises (content : string) (self_notes : list Note) (e : exn) :
parse_sm_file content self_notes = Raise e → e = ValueError.
Proof.
unfold parse_sm_file.
destruct (_parse_bpms content) eqn:E1; cbn [bind];
[|intros [= <-]; by eapply parse_pairs_raises].
destruct (_parse_stops content) eqn:E2; cbn [bind];
[|intros [= <-]; by eapply parse_pairs_raises].
destruct (_parse_warps content) eqn:E3; cbn [bind];
[|intros [= <-]; by eapply parse_pairs_raises].
destruct (_parse_fakes content) eqn:E4; cbn [bind];
[|intros [= <-]; by eapply parse_pairs_raises].
destruct (_parse_speeds content) eqn:E5; cbn [bind];
[|intros [= <-]; by eapply parse_speeds_raises].
destruct (_parse_scrolls content) eqn:E6; cbn [bind];
[|intros [= <-]; by eapply parse_pairs_raises].
apply for_each_raises. intros x s e'. apply parse_section_raises.
Qed.

End TimingMore.

(** X3.  Whatever the text, the only exception [parse_sm_file] raises is
    [ValueError] (an unreadable number or a malformed list entry). *)
Theorem parse_sm_file_raises_only_ValueError
    (B : Builtins) (content : string) (self_notes : list Note) :
  match parse_sm_file content self_notes with
  | Ok _ => True
  | Raise e => e = ValueError
  end.
Proof.
  destruct (parse_sm_file content self_notes) eqn:E; [done |].
  by eapply parse_sm_file_raises.
Qed.

Lemma two_field_parsers_eq (B : Builtins) (tag : string)
    (parse : string → result (list (pyfloat * pyfloat))) :
  (tag, parse) ∈ two_field_parsers → parse = _parse_pairs tag.
Proof.
  unfold two_field_parsers. intros Hin.
  repeat (apply elem_of_cons in Hin as [[= -> ->]|Hin]; [done |]).
  by apply elem_of_nil in Hin.
Qed.

(** X4.  When a two-field parser returns, its result has one tuple for each
    comma-separated entry of the stripped body of the first block of its
    tag that holds an [=]: entries without [=] are passed over, none is
    added.  What precedes the block (other tags) does not matter. *)
Theorem pair_list_has_one_tuple_per_entry_with_equals
    (B : Builtins) (tag : string)
    (parse : string → result (list (pyfloat * pyfloat)))
    (pre body post content : string) (l : list (pyfloat * pyfloat)) :
  (tag, parse) ∈ two_field_parsers →
  first_block tag pre body post content →
  parse content = Ok l →
  length l = length (filter (λ e, contains "=" e) (split "," (strip body))).
Proof.
  intros ->%two_field_parsers_eq Hfirst. unfold _parse_pairs, pair_entries.
  rewrite (re_search_tag_first _ _ _ _ _ Hfirst).
  destruct (for_each _ _ _) as [entries|] eqn:E; cbn [bind]; [|discriminate].
  intros [= <-]. rewrite sorted_perm.
  by rewrite (for_each_pair_entry_length _ _ _ E).
Qed.

Lemma pair_list_has_one_tuple_per_entry_with_equals_witness :
  let content := "#TITLE:a;#BPMS:0=120, junk ,8=90;#BPMS:1=1;" in
  let l := [(Finite 0, Finite 120); (Finite 8, Finite 90)] in
  ("BPMS", @_parse_bpms Decimal.builtins) ∈ @two_field_parsers Decimal.builtins ∧
  first_block "BPMS" "#TITLE:a;" "0=120, junk ,8=90" "#BPMS:1=1;" content ∧
  @_parse_bpms Decimal.builtins content = Ok l ∧
  length l = 2.
Proof.
  assert (("BPMS", @_parse_bpms Decimal.builtins)
            ∈ @two_field_parsers Decimal.builtins) as Hin by (by left).
  assert (first_block "BPMS" "#TITLE:a;" "0=120, junk ,8=90" "#BPMS:1=1;"
            "#TITLE:a;#BPMS:0=120, junk ,8=90;#BPMS:1=1;") as Hfirst
    by (split_and!; reflexivity).
  assert (@_parse_bpms Decimal.builtins
            "#TITLE:a;#BPMS:0=120, junk ,8=90;#BPMS:1=1;"
          = Ok [(Finite 0, Finite 120); (Finite 8, Finite 90)]) as Hl
    by (vm_compute; reflexivity).
  pose proof (pair_list_has_one_tuple_per_entry_with_equals Decimal.builtins
                _ _ _ _ _ _ _ Hin Hfirst Hl) as H.
  exact (conj Hin (conj Hfirst (conj Hl H))).
Defined.

Lemma split_app (c : ascii) (a rest : string) :
  contains c a = false →
  split c (a +:+ String c rest) = a :: split c rest.
Proof.
  induction a as [|d a IH].
  - intros _. change (split c (String c rest) = "" :: split c rest).
    rewrite split_cons_eq. by rewrite (proj2 (ascii_eqb_true c c) eq_refl).
  - simpl contains. intros [Hd Ha]%orb_false_iff.
    rewrite (string_app_cons d a), split_cons_eq, Hd, (IH Ha). done.
Qed.

Lemma join_commas_cons (part : string) (parts : list string) :
  parts ≠ [] →
  join_commas (part :: parts) = part +:+ String "," (join_commas parts).
Proof. by destruct parts. Qed.

Lemma split_join_commas (parts : list string) :
  parts ≠ [] →
  Forall (λ p, contains "," p = false) parts →
  split "," (join_commas parts) = parts.
Proof.
  induction parts as [|p parts IH]; [done |]. intros _ Hp.
  apply Forall_cons in Hp as [Hp Hparts].
  destruct parts as [|q parts].
  - by apply split_absent.
  - rewrite join_commas_cons by done. rewrite split_app by done.
    by rewrite IH.
Qed.

Section WellFormed.
Context `{Builtins}.

Lemma pair_entry_reads (text : string * string) (value : pyfloat * pyfloat)
(acc : list (pyfloat * pyfloat)) :
reads text value →
pair_entry (entry_text text) acc = Ok (acc ++ [value]).
Proof.
destruct text as [b v], value as [x y].
intros ((_ & Hb & _) & (_ & Hv & _) & Fb & Fv). simpl in *.
unfold pair_entry, entry_text. simpl fst. simpl snd.
rewrite contains_app. change ("=" +:+ v) with (String "=" v).
simpl contains. rewrite orb_true_r.
rewrite split_app, (split_absent _ _ Hv) by done.
unfold float. by rewrite Fb, Fv.
Qed.

Lemma for_each_pair_entry_reads (texts : list (string * string))
(values acc : list (pyfloat * pyfloat)) :
Forall2 reads texts values →
for_each pair_entry (entry_text <$> texts) acc = Ok (acc ++ values).
Proof.
intros Hr. revert acc. induction Hr as [|t v texts values Htv _ IH]; intros acc.
- simpl. by rewrite app_nil_r.
- rewrite fmap_cons. cbn [for_each]. rewrite (pair_entry_reads _ _ _ Htv).
cbn [bind]. rewrite IH. by rewrite <- app_assoc.
Qed.

Lemma entry_text_no_comma (text : string * string) (value : pyfloat * pyfloat) :
reads text value → contains "," (entry_text text) = false.
Proof.
intros ((Hb & _) & (Hv & _) & _). unfold entry_text.
rewrite contains_app, Hb. change ("=" +:+ text.2) with (String "=" text.2).
simpl. exact Hv.
Qed.

Lemma entry_text_no_semicolon (text : string * string) (value : pyfloat * pyfloat) :
reads text value → contains ";" (entry_text text) = false.
Proof.
intros ((_ & _ & Hb) & (_ & _ & Hv) & _). unfold entry_text.
rewrite contains_app, Hb. change ("=" +:+ text.2) with (String "=" text.2).
simpl. exact Hv.
Qed.

Lemma contains_join_commas (c : ascii) (parts : list string) :
c ≠ ","%char →
Forall (λ p, contains c p = false) parts →
contains c (join_commas parts) = false.
Proof.
intros Hc. induction parts as [|p parts IH]; [done |].
intros [Hp Hparts]%Forall_cons. destruct parts as [|q parts]; [done |].
rewrite join_commas_cons by done. rewrite contains_app, Hp.
cbn [contains orb]. rewrite (IH Hparts), orb_false_r.
apply ascii_eqb_false. congruence.
Qed.

End WellFormed.

Lemma reads_entry_texts (B : Builtins) (texts : list (string * string))
    (values : list (pyfloat * pyfloat)) :
  Forall2 reads texts values →
  Forall (λ p, contains "," p = false) (entry_text <$> texts) ∧
  Forall (λ p, contains ";" p = false) (entry_text <$> texts).
Proof.
  induction 1 as [|t v texts values Htv _ [IH1 IH2]]; [by split |].
  rewrite fmap_cons. split; constructor; try done.
  - by eapply entry_text_no_comma.
  - by eapply entry_text_no_semicolon.
Qed.

(** X5.  A well-formed list parses to the sorted list of its values: when
    the body of the first block of the tag is the entries [beat=value]
    joined by commas, with fields free of [,], [=] and [;] that [float]
    reads as floats other than NaN, and the body has no white space at
    either end, the parser returns the values read, sorted.  What precedes
    the block (other tags) does not matter. *)
Theorem well_formed_pair_list_parses
    (B : Builtins) (tag : string)
    (parse : string → result (list (pyfloat * pyfloat)))
    (pre post content : string)
    (texts : list (string * string)) (values : list (pyfloat * pyfloat)) :
  (tag, parse) ∈ two_field_parsers →
  first_block tag pre (join_commas (entry_text <$> texts)) post content →
  Forall2 reads texts values →
  Forall nan_free2 values →
  strip (join_commas (entry_text <$> texts)) = join_commas (entry_text <$> texts) →
  parse content = Ok (sorted tuple2_lt values).
Proof.
  intros ->%two_field_parsers_eq Hfirst Hr _ Hstrip.
  unfold _parse_pairs, pair_entries.
  destruct (reads_entry_texts _ _ _ Hr) as [Hcomma Hsemi].
  rewrite (re_search_tag_first _ _ _ _ _ Hfirst).
  rewrite Hstrip. destruct texts as [|t texts].
  - apply Forall2_nil_inv_l in Hr as ->. reflexivity.
  - rewrite split_join_commas by done.
    by rewrite (for_each_pair_entry_reads _ _ _ Hr).
Qed.

Lemma well_formed_pair_list_parses_witness :
  let content := "#TITLE:a;#STOPS:4=1,0=200;" in
  let values := [(Finite 4, Finite 1); (Finite 0, Finite 200)] in
  ("STOPS", @_parse_stops Decimal.builtins) ∈ @two_field_parsers Decimal.builtins ∧
  first_block "STOPS" "#TITLE:a;" "4=1,0=200" "" content ∧
  Forall2 (@reads Decimal.builtins) [("4", "1"); ("0", "200")] values ∧
  Forall nan_free2 values ∧
  @_parse_stops Decimal.builtins content
  = Ok [(Finite 0, Finite 200); (Finite 4, Finite 1)].
Proof.
  assert (("STOPS", @_parse_stops Decimal.builtins)
            ∈ @two_field_parsers Decimal.builtins) as Hin by (right; by left).
  assert (first_block "STOPS" "#TITLE:a;" "4=1,0=200" ""
            "#TITLE:a;#STOPS:4=1,0=200;") as Hfirst
    by (split_and!; reflexivity).
  assert (Forall2 (@reads Decimal.builtins) [("4", "1"); ("0", "200")]
            [(Finite 4, Finite 1); (Finite 0, Finite 200)]) as Hr
    by (repeat constructor).
  assert (Forall nan_free2 [(Finite 4, Finite 1); (Finite 0, Finite 200)])
    as Hnan by (repeat constructor; done).
  pose proof (well_formed_pair_list_parses Decimal.builtins _ _ "#TITLE:a;" ""
                _ [("4", "1"); ("0", "200")] _ Hin Hfirst Hr Hnan eq_refl) as H.
  exact (conj Hin (conj Hfirst (conj Hr (conj Hnan H)))).
Defined.

(** ** Hold resolution, continued *)

Lemma set_hold_length_shape (n : Note) (x : Q) :
  shape (set_hold_length n x) = shape n.
Proof. done. Qed.

Lemma is_head_set_hold_length (n : Note) (x : Q) :
  is_head (set_hold_length n x) = is_head n.
Proof. done. Qed.

Lemma find_tail_shape (h h' : Note) (l l' : list Note) :
  column h = column h' →
  Forall2 (λ a b, shape a = shape b) l l' →
  option_Forall2 (λ a b, shape a = shape b) (find_tail h l) (find_tail h' l').
Proof.
  intros Hc. induction 1 as [|a b l l' Hab _ IH]; simpl; [constructor |].
  pose proof Hab as Hab'. injection Hab' as Hb Hcol Hty Hf.
  assert (is_tail a = is_tail b) as -> by (unfold is_tail; by rewrite Hty).
  rewrite <- Hc, Hcol.
  destruct (bool_decide (column b = column h) && is_tail b); [|done].
  by constructor.
Qed.

Lemma resolve_all_shape (notes : list Note) :
  Forall2 (λ a b, shape a = shape b) (resolve_all notes) notes.
Proof.
  induction notes as [|n notes IH]; simpl; constructor; [|done].
  destruct (is_head n); [|done]. by destruct (find_tail n notes).
Qed.

Lemma resolve_all_idem (notes : list Note) :
  resolve_all (resolve_all notes) = resolve_all notes.
Proof.
  induction notes as [|n notes IH]; [done |].
  cbn [resolve_all]. rewrite IH. f_equal.
  destruct (is_head n) eqn:Hh; [|by rewrite Hh].
  destruct (find_tail n notes) as [t|] eqn:Ht.
  - rewrite is_head_set_hold_length, Hh.
    pose proof (find_tail_shape (set_hold_length n (beat t - beat n)) n
                  (resolve_all notes) notes eq_refl (resolve_all_shape notes))
      as Hs.
    rewrite Ht in Hs. inversion Hs as [t' t'' Hsh E1 E2|]; subst.
    injection Hsh as Hb _ _ _. cbn. by rewrite Hb.
  - rewrite Hh.
    pose proof (find_tail_shape n n (resolve_all notes) notes eq_refl
                  (resolve_all_shape notes)) as Hs.
    rewrite Ht in Hs. inversion Hs. done.
Qed.

(** X6.  Hold resolution is idempotent: running [_process_holds] again on
    its own result changes nothing.  (The parser runs it after every
    section, on all notes collected so far.) *)
Theorem process_holds_is_idempotent (notes : list Note) :
  _process_holds (_process_holds notes) = _process_holds notes.
Proof. rewrite !process_holds_eq. apply resolve_all_idem. Qed.

Lemma find_tail_app (h : Note) (l1 l2 : list Note) :
  find_tail h (l1 ++ l2) =
  match find_tail h l1 with
  | Some t => Some t
  | None => find_tail h l2
  end.
Proof.
  induction l1 as [|x l1 IH]; simpl; [done |].
  by destruct (bool_decide (column x = column h) && is_tail x).
Qed.

Lemma find_tail_is_Some (h t : Note) (l : list Note) (j : nat) :
  l !! j = Some t → closes h t → is_Some (find_tail h l).
Proof.
  intros Hj Hcl. destruct (find_tail h l) eqn:E; [done |].
  by destruct (find_tail_None _ _ E j t Hj).
Qed.

(** X7.  Appending notes does not change a note that is not a head, nor a
    head that already has a tail after it in its column: only a head still
    open can be paired with a tail that comes later (from a later measure,
    or from a later section, since all sections share one list). *)
Theorem appended_notes_leave_closed_heads_alone
    (notes more : list Note) (i : nat) (n : Note) :
  notes !! i = Some n →
  (¬ head_kind (type n) ∨ ∃ j t, i < j ∧ notes !! j = Some t ∧ closes n t) →
  _process_holds (notes ++ more) !! i = _process_holds notes !! i.
Proof.
  intros Hi Hcase. rewrite !process_holds_eq.
  rewrite (resolve_all_lookup notes i n Hi).
  rewrite (resolve_all_lookup (notes ++ more) i n)
    by (by apply lookup_app_l_Some).
  destruct (is_head n) eqn:Hh; [|done].
  destruct Hcase as [Hn|(j & t & Hij & Hj & Hcl)].
  { by destruct Hn; apply is_head_spec. }
  rewrite drop_app_le by (apply lookup_lt_Some in Hi; lia).
  rewrite find_tail_app.
  destruct (find_tail_is_Some n t (drop (S i) notes) (j - S i)) as [t' ->];
    [|done..].
  rewrite lookup_drop. by replace (S i + (j - S i)) with j by lia.
Qed.

Lemma appended_notes_leave_closed_heads_alone_witness :
  let head := {| beat := 0; column := 1; type := "roll_head";
                 hold_length := 0; is_fake := false |} in
  let tail := {| beat := 1; column := 1; type := "roll_tail";
                 hold_length := 0; is_fake := false |} in
  let late := {| beat := 3; column := 1; type := "roll_tail";
                 hold_length := 0; is_fake := false |} in
  [head; tail] !! 0 = Some head ∧
  (∃ j t, 0 < j ∧ [head; tail] !! j = Some t ∧ closes head t) ∧
  _process_holds ([head; tail] ++ [late]) !! 0 = _process_holds [head; tail] !! 0.
Proof.
  set (head := {| beat := 0; column := 1; type := "roll_head";
                  hold_length := 0; is_fake := false |}).
  set (tail := {| beat := 1; column := 1; type := "roll_tail";
                  hold_length := 0; is_fake := false |}).
  set (late := {| beat := 3; column := 1; type := "roll_tail";
                  hold_length := 0; is_fake := false |}).
  assert (∃ j t, 0 < j ∧ [head; tail] !! j = Some t ∧ closes head t) as Hex.
  { exists 1, tail. split_and!; [lia | done |]. split; [done | by right]. }
  pose proof (appended_notes_leave_closed_heads_alone [head; tail] [late] 0 head
                eq_refl (or_intror Hex)) as H.
  exact (conj eq_refl (conj Hex H)).
Defined.

(** ** Order of the parsed notes *)

Lemma parse_row_hold_length (b : Q) (col : nat) (row : string) (n : Note) :
  n ∈ parse_row b col row [] → hold_length n = 0%Q.
Proof.
  revert col. induction row as [|c row IH]; intros col; simpl.
  - by intros ?%elem_of_nil.
  - rewrite parse_row_app. intros [Hn|Hn]%elem_of_app; [|by eapply IH].
    destruct (NOTE_TYPES !! String c ""); [|by apply elem_of_nil in Hn].
    destruct (bool_decide (String c "" ≠ "0")); [|by apply elem_of_nil in Hn].
    by apply list_elem_of_singleton in Hn as ->.
Qed.

Lemma sorted_constant (b : Q) (l : list Q) :
  Forall (λ x, x = b) l → StronglySorted Qle l.
Proof.
  induction 1 as [|x l Hx Hl IH]; constructor; [exact IH |].
  subst x. eapply Forall_impl; [exact Hl |]. intros y ->. apply Qle_refl.
Qed.

Lemma row_segment_beats (cb bpr : Q) (idx : nat) (row : string) :
  Forall (λ x, x = (cb + inject_Z (Z.of_nat idx) * bpr)%Q)
    (beat <$> (if bool_decide (len row ∉ [4; 8]) then []
               else parse_row (cb + inject_Z (Z.of_nat idx) * bpr)%Q 0 row [])).
Proof.
  apply Forall_fmap, Forall_forall. intros n Hn.
  destruct (bool_decide (len row ∉ [4; 8])); [by apply elem_of_nil in Hn |].
  simpl. by eapply parse_row_beat.
Qed.

Lemma parse_rows_cons (cb bpr : Q) (idx : nat) (row : string)
    (rows : list string) :
  parse_rows cb bpr idx (row :: rows) [] =
  (if bool_decide (len row ∉ [4; 8]) then []
   else parse_row (cb + inject_Z (Z.of_nat idx) * bpr)%Q 0 row [])
  ++ parse_rows cb bpr (S idx) rows [].
Proof.
  cbn [parse_rows]. rewrite parse_rows_app.
  by destruct (bool_decide (len row ∉ [4; 8])).
Qed.

(** Within a measure the beats do not decrease, and none is below the beat
    of the first row considered. *)
Lemma parse_rows_sorted (cb bpr : Q) (idx : nat) (rows : list string) :
  (0 <= bpr)%Q →
  StronglySorted Qle (beat <$> parse_rows cb bpr idx rows []) ∧
  Forall (λ x, cb + inject_Z (Z.of_nat idx) * bpr <= x)%Q
    (beat <$> parse_rows cb bpr idx rows []).
Proof.
  intros Hbpr. revert idx.
  induction rows as [|row rows IH]; intros idx.
  - split; constructor.
  - rewrite parse_rows_cons, fmap_app.
    destruct (IH (S idx)) as [IHs IHb].
    pose proof (row_segment_beats cb bpr idx row) as Hseg.
    assert (inject_Z (Z.of_nat (S idx)) == inject_Z (Z.of_nat idx) + 1)%Q as HS
      by (rewrite Nat2Z.inj_succ, <- Z.add_1_r, inject_Z_plus; reflexivity).
    assert (Forall (λ x, cb + inject_Z (Z.of_nat idx) * bpr <= x)%Q
              (beat <$> parse_rows cb bpr (S idx) rows [])) as Hrest.
    { eapply Forall_impl; [exact IHb |]. intros x Hx. simpl in Hx.
      rewrite HS in Hx. nra. }
    split.
    + apply StronglySorted_app. split_and!; [|by eapply sorted_constant | done].
      intros x1 x2 Hx1 Hx2.
      rewrite Forall_forall in Hseg. rewrite (Hseg _ Hx1).
      rewrite Forall_forall in Hrest. by apply Hrest.
    + apply Forall_app. split; [|done].
      eapply Forall_impl; [exact Hseg |]. intros x ->. apply Qle_refl.
Qed.

Lemma beats_per_row_nonneg (n : nat) :
  (0 <= 4 / inject_Z (Z.of_nat n))%Q.
Proof.
  destruct n as [|n]; [by vm_compute |].
  apply Qle_shift_div_l; [rewrite <- (Zlt_Qlt 0); lia | lra].
Qed.

Lemma elem_of_concat {A} (x : A) (ls : list (list A)) :
  x ∈ concat ls → ∃ l i, ls !! i = Some l ∧ x ∈ l.
Proof.
  induction ls as [|l ls IH]; cbn [concat]; [by intros ?%elem_of_nil |].
  intros [Hx|Hx]%elem_of_app; [by exists l, 0 |].
  destruct (IH Hx) as (l' & i & Hi & Hl'). by exists l', (S i).
Qed.

(** The beats of a measure with rows lie in the four beats of the measure. *)
Lemma parse_rows_bounds (cb : Q) (rows : list string) (x : Q) :
  x ∈ beat <$> parse_rows cb (4 / inject_Z (Z.of_nat (length rows)))%Q 0 rows [] →
  (cb <= x < cb + 4)%Q.
Proof.
  rewrite parse_rows_row_segments.
  intros (n & -> & Hn)%list_elem_of_fmap.
  apply elem_of_concat in Hn as (seg & r & Hr & Hn).
  assert (r < length rows) as Hlt.
  { apply lookup_lt_Some in Hr. by rewrite row_segments_length in Hr. }
  destruct (lookup_lt_is_Some_2 rows r Hlt) as [row Hrow].
  rewrite (row_segments_lookup _ _ _ _ _ _ Hrow) in Hr. injection Hr as <-.
  destruct (bool_decide (len row ∉ [4; 8])); [by apply elem_of_nil in Hn |].
  apply parse_row_beat in Hn as ->. simpl.
  pose proof (row_offset_range r (length rows) Hlt). lra.
Qed.

Lemma measure_segments_sorted (measures : list string) (cb : Q) :
  StronglySorted Qle (beat <$> concat (measure_segments measures cb)) ∧
  Forall (λ x, cb <= x)%Q (beat <$> concat (measure_segments measures cb)).
Proof.
  revert cb. induction measures as [|measure measures IH]; intros cb.
  - split; constructor.
  - cbn [measure_segments].
    destruct (rows_of measure) as [|row rows] eqn:R; cbn [concat].
    + apply IH.
    + rewrite fmap_app. destruct (IH (cb + 4)%Q) as [IHs IHb].
      pose proof (parse_rows_sorted cb
                    (4 / inject_Z (Z.of_nat (length (row :: rows))))%Q 0
                    (row :: rows) (beats_per_row_nonneg _)) as [Hs _].
      split.
      * apply StronglySorted_app. split_and!; [|done..].
        intros x1 x2 Hx1%parse_rows_bounds Hx2.
        rewrite Forall_forall in IHb. specialize (IHb _ Hx2). simpl in IHb. lra.
      * apply Forall_app. split.
        -- apply Forall_forall. intros x Hx%parse_rows_bounds. lra.
        -- eapply Forall_impl; [exact IHb |]. intros x Hx. simpl in Hx. lra.
Qed.

Lemma parse_rows_hold_length (cb bpr : Q) (idx : nat) (rows : list string)
    (n : Note) :
  n ∈ parse_rows cb bpr idx rows [] → hold_length n = 0%Q.
Proof.
  revert idx. induction rows as [|row rows IH]; intros idx.
  - by intros ?%elem_of_nil.
  - rewrite parse_rows_cons. intros [Hn|Hn]%elem_of_app; [|by eapply IH].
    destruct (bool_decide (len row ∉ [4; 8])); [by apply elem_of_nil in Hn |].
    by eapply parse_row_hold_length.
Qed.

Lemma measure_segments_hold_length (measures : list string) (cb : Q) (n : Note) :
  n ∈ concat (measure_segments measures cb) → hold_length n = 0%Q.
Proof.
  revert cb. induction measures as [|measure measures IH]; intros cb.
  - by intros ?%elem_of_nil.
  - cbn [measure_segments].
    destruct (rows_of measure) as [|row rows]; cbn [concat].
    + apply IH.
    + intros [Hn|Hn]%elem_of_app; [by eapply parse_rows_hold_length |].
      by eapply IH.
Qed.

Lemma parse_notes_fresh (notes_data : string) :
  _parse_notes notes_data []
  = resolve_all (concat (measure_segments (split "," (strip notes_data)) 0%Q)).
Proof.
  unfold _parse_notes. by rewrite process_holds_eq, parse_measures_segments.
Qed.

(** X8.  On a fresh visualizer the notes of a grid come out ordered by
    beat: along [self.notes] the beats never decrease. *)
Theorem fresh_parse_is_ordered_by_beat (notes_data : string) :
  StronglySorted Qle (beat <$> _parse_notes notes_data []).
Proof.
  rewrite parse_notes_fresh, (resolve_all_fmap beat) by done.
  apply measure_segments_sorted.
Qed.

Lemma sorted_later (l : list Note) (i j : nat) (a b : Note) :
  StronglySorted Qle (beat <$> l) →
  l !! i = Some a → drop (S i) l !! j = Some b → (beat a <= beat b)%Q.
Proof.
  intros Hs Hi Hj.
  rewrite <- (take_drop_middle l i a Hi), fmap_app, fmap_cons in Hs.
  apply StronglySorted_app_1_r, StronglySorted_cons in Hs as [Hall _].
  rewrite Forall_forall in Hall. apply Hall.
  apply list_elem_of_fmap. exists b. split; [done |].
  by eapply list_elem_of_lookup_2.
Qed.

(** X9.  On a fresh visualizer no hold length is negative after a grid is
    parsed: a head is paired with a note further down the beat-ordered
    list. *)
Theorem fresh_parse_has_no_negative_hold (notes_data : string) :
  Forall (λ n, 0 <= hold_length n)%Q (_parse_notes notes_data []).
Proof.
  rewrite parse_notes_fresh.
  set (l := concat (measure_segments (split "," (strip notes_data)) 0%Q)).
  assert (StronglySorted Qle (beat <$> l)) as Hs
    by apply measure_segments_sorted.
  assert (∀ n, n ∈ l → hold_length n = 0%Q) as Hz
    by (intros n; apply measure_segments_hold_length).
  apply Forall_lookup. intros i n' Hi.
  assert (is_Some (l !! i)) as [n Hn].
  { apply lookup_lt_is_Some. apply lookup_lt_Some in Hi.
    by rewrite resolve_all_length in Hi. }
  rewrite (resolve_all_lookup _ _ _ Hn) in Hi. injection Hi as <-.
  assert (hold_length n = 0%Q) as Hn0 by (eapply Hz, list_elem_of_lookup_2, Hn).
  destruct (is_head n); [|rewrite Hn0; apply Qle_refl].
  destruct (find_tail n (drop (S i) l)) as [t|] eqn:Ht;
    [|rewrite Hn0; apply Qle_refl].
  apply find_tail_Some in Ht as (j & Hj & _).
  pose proof (sorted_later l i j n t Hs Hn Hj). simpl. lra.
Qed.

(** ** Columns and kinds *)

Lemma length_list_ascii_of_string (s : string) :
  length (list_ascii_of_string s) = len s.
Proof. induction s; simpl; [done | by f_equal]. Qed.

Lemma NOTE_TYPES_kinds (key kind : string) :
  NOTE_TYPES !! key = Some kind → key ≠ "0" →
  kind ∈ ["tap"; "hold_head"; "mine"; "roll_head"; "roll_tail"; "fake"; "lift"].
Proof.
  intros Hk Hkey. apply elem_of_map_to_list in Hk.
  assert (map_to_list NOTE_TYPES
          = [("3", "roll_tail"); ("M", "mine"); ("1", "tap"); ("F", "fake");
             ("2", "hold_head"); ("L", "lift"); ("4", "roll_head");
             ("0", "none")]) as E by (vm_compute; reflexivity).
  rewrite E in Hk.
  repeat (apply elem_of_cons in Hk as [[= -> ->]|Hk];
          [first [done | set_solver] |]).
  by apply elem_of_nil in Hk.
Qed.

(** X10.  Whatever the grid, every note the parser adds sits in a column
    below 8 and has one of seven kinds: tap, hold_head, mine, roll_head,
    roll_tail, fake or lift (never none, never hold_tail). *)
Theorem added_notes_have_column_below_8_and_a_known_kind
    (notes_data : string) (self_notes : list Note) :
  Forall (λ n, column n < 8 ∧
               type n ∈ ["tap"; "hold_head"; "mine"; "roll_head"; "roll_tail";
                         "fake"; "lift"])
         (drop (length self_notes) (_parse_notes notes_data self_notes)).
Proof.
  apply Forall_forall. intros n Hn.
  apply (list_elem_of_fmap_2 col_kind) in Hn.
  rewrite parse_notes_col_kind in Hn.
  apply list_elem_of_bind in Hn as (measure & Hn & _).
  apply list_elem_of_bind in Hn as (row & Hn & _).
  destruct (bool_decide (accepted row)) eqn:Ha; [|by apply elem_of_nil in Hn].
  apply bool_decide_eq_true in Ha.
  apply elem_of_row_symbols in Hn as (c & Hc & Hk & Hkey).
  split.
  - apply lookup_lt_Some in Hc. rewrite length_list_ascii_of_string in Hc.
    destruct Ha as [Ha|Ha]; lia.
  - by eapply NOTE_TYPES_kinds.
Qed.

(** X11.  A grid whose rows hold only ["0"] and characters the table does
    not know adds no note. *)
Theorem grid_without_symbols_adds_no_note
    (notes_data : string) (self_notes : list Note) :
  (∀ measure row c,
     measure ∈ split "," (strip notes_data) →
     row ∈ rows_of measure →
     c ∈ list_ascii_of_string row →
     c = "0"%char ∨ NOTE_TYPES !! String c "" = None) →
  drop (length self_notes) (_parse_notes notes_data self_notes) = [].
Proof.
  intros Hchars.
  destruct (drop (length self_notes) (_parse_notes notes_data self_notes))
    as [|n l] eqn:E; [done |].
  assert (col_kind n ∈ col_kind <$>
            drop (length self_notes) (_parse_notes notes_data self_notes)) as Hn
    by (rewrite E; left).
  rewrite parse_notes_col_kind in Hn.
  apply list_elem_of_bind in Hn as (measure & Hn & Hm).
  apply list_elem_of_bind in Hn as (row & Hn & Hr).
  destruct (bool_decide (accepted row)); [|by apply elem_of_nil in Hn].
  apply elem_of_row_symbols in Hn as (c & Hc & Hk & Hkey).
  destruct (Hchars measure row c Hm Hr) as [-> | Hnone].
  - by eapply list_elem_of_lookup_2.
  - done.
  - congruence.
Qed.

Lemma grid_without_symbols_adds_no_note_witness :
  (∀ measure row c,
     measure ∈ split "," (strip "0000,0x00") →
     row ∈ rows_of measure →
     c ∈ list_ascii_of_string row →
     c = "0"%char ∨ NOTE_TYPES !! String c "" = None) ∧
  _parse_notes "0000,0x00" [] = [].
Proof.
  assert (∀ measure row c,
     measure ∈ split "," (strip "0000,0x00") →
     row ∈ rows_of measure →
     c ∈ list_ascii_of_string row →
     c = "0"%char ∨ NOTE_TYPES !! String c "" = None) as Hchars.
  { intros measure row c Hm Hr Hc.
    change (split "," (strip "0000,0x00")) with ["0000"; "0x00"] in Hm.
    apply elem_of_cons in Hm as [->|Hm];
      [|apply list_elem_of_singleton in Hm as ->].
    - change (rows_of "0000") with ["0000"] in Hr.
      apply list_elem_of_singleton in Hr as ->.
      left. simpl in Hc.
      repeat (apply elem_of_cons in Hc as [->|Hc]; [done |]).
      by apply elem_of_nil in Hc.
    - change (rows_of "0x00") with ["0x00"] in Hr.
      apply list_elem_of_singleton in Hr as ->.
      simpl in Hc.
      repeat (apply elem_of_cons in Hc as [->|Hc];
              [first [by left | right; vm_compute; reflexivity] |]).
      by apply elem_of_nil in Hc. }
  exact (conj Hchars (grid_without_symbols_adds_no_note "0000,0x00" [] Hchars)).
Defined.

(** ** Sections and charts *)

Lemma parse_notes_all {B} (f : Note → B) (notes_data : string)
    (self_notes : list Note) :
  (∀ n x, f (set_hold_length n x) = f n) →
  f <$> _parse_notes notes_data self_notes
  = (f <$> self_notes)
    ++ (f <$> concat (measure_segments (split "," (strip notes_data)) 0%Q)).
Proof.
  intros Hf. unfold _parse_notes.
  rewrite process_holds_eq, (resolve_all_fmap f) by done.
  by rewrite parse_measures_segments, fmap_app.
Qed.

Section Sections.
Context `{Builtins}.

(** What one pass of the loop body does to the state. *)
Lemma parse_section_Ok (base : ChartMetadata) (section : NotesSection)
(charts charts' : list Chart) (notes notes' : list Note) :
parse_section base section (charts, notes) = Ok (charts', notes') →
shape <$> notes' = (shape <$> notes) ++ section_shapes section ∧
∃ new,
charts' = charts ++ new ∧
(λ c, (chart_type c, difficulty (chart_metadata c))) <$> new
= (if bool_decide (supported section)
 then [(strip (g_chart_type section), strip (g_diff_class section))]
 else []) ∧
(∀ notes0, ∃ notes0',
 parse_section base section (charts, notes0) = Ok (charts', notes0')) ∧
Forall (λ c, title (chart_metadata c) = title base ∧
 subtitle (chart_metadata c) = subtitle base ∧
 artist (chart_metadata c) = artist base ∧
 credit (chart_metadata c) = credit base ∧
 bpms (chart_metadata c) = bpms base ∧
 stops (chart_metadata c) = stops base ∧
 warps (chart_metadata c) = warps base ∧
 fakes (chart_metadata c) = fakes base ∧
 speeds (chart_metadata c) = speeds base ∧
 scrolls (chart_metadata c) = scrolls base) new.
Proof.
unfold parse_section, section_shapes, supported.
destruct (decide (strip (g_chart_type section)
∈ ["dance-single"; "dance-double"])) as [Hs|Hs].
- rewrite (bool_decide_eq_false_2 (_ ∉ _)) by (by intros ?).
rewrite (bool_decide_eq_true_2 _ Hs).
destruct (int _) as [m|]; cbn [bind]; [|discriminate].
intros [= <- <-]. split; [by apply (parse_notes_all shape) |].
eexists. split_and!; [done | done | by eauto | by repeat constructor].
- rewrite (bool_decide_eq_true_2 (_ ∉ _) Hs).
rewrite (bool_decide_eq_false_2 _ Hs).
intros [= <- <-]. split; [by rewrite app_nil_r |].
exists []. split_and!; [by rewrite app_nil_r | done | by eauto | constructor].
Qed.

Lemma for_each_parse_section_Ok (base : ChartMetadata)
(sections : list NotesSection)
(charts charts' : list Chart) (notes notes' : list Note) :
for_each (parse_section base) sections (charts, notes) = Ok (charts', notes') →
shape <$> notes' = (shape <$> notes) ++ (sections ≫= section_shapes) ∧
∃ new,
charts' = charts ++ new ∧
(λ c, (chart_type c, difficulty (chart_metadata c))) <$> new
= (λ s, (strip (g_chart_type s), strip (g_diff_class s)))
<$> filter supported sections ∧
(∀ notes0, ∃ notes0',
 for_each (parse_section base) sections (charts, notes0)
 = Ok (charts', notes0')) ∧
Forall (λ c, title (chart_metadata c) = title base ∧
 subtitle (chart_metadata c) = subtitle base ∧
 artist (chart_metadata c) = artist base ∧
 credit (chart_metadata c) = credit base ∧
 bpms (chart_metadata c) = bpms base ∧
 stops (chart_metadata c) = stops base ∧
 warps (chart_metadata c) = warps base ∧
 fakes (chart_metadata c) = fakes base ∧
 speeds (chart_metadata c) = speeds base ∧
 scrolls (chart_metadata c) = scrolls base) new.
Proof.
revert charts notes.
induction sections as [|section sections IH]; intros charts notes;
cbn [for_each].
- intros [= <- <-]. split; [by rewrite app_nil_r |].
exists []. split_and!; [by rewrite app_nil_r | done | by eauto | constructor].
- destruct (parse_section base section (charts, notes)) as [[c1 n1]|] eqn:E;
cbn [bind]; [|discriminate].
intros Hrest.
destruct (parse_section_Ok _ _ _ _ _ _ E)
as (Hn1 & new1 & -> & Hnew1 & Hany1 & Hmeta1).
destruct (IH _ _ Hrest) as (Hn' & new2 & -> & Hnew2 & Hany2 & Hmeta2).
split.
{ rewrite Hn', Hn1, bind_cons. by rewrite app_assoc. }
exists (new1 ++ new2). split_and!.
+ by rewrite app_assoc.
+ rewrite fmap_app, Hnew1, Hnew2, filter_cons.
destruct (decide (supported section)) as [Hs|Hs].
* by rewrite (bool_decide_eq_true_2 _ Hs).
* by rewrite (bool_decide_eq_false_2 _ Hs).
+ intros notes0. destruct (Hany1 notes0) as [n0' E0]. rewrite E0.
cbn [bind]. apply Hany2.
+ by apply Forall_app.
Qed.

Lemma parse_sm_file_Ok (content : string) (self_notes notes : list Note)
(charts : list Chart) :
parse_sm_file content self_notes = Ok (charts, notes) →
shape <$> notes
= (shape <$> self_notes) ++ (finditer_notes 0 content ≫= section_shapes) ∧
(λ c, (chart_type c, difficulty (chart_metadata c))) <$> charts
= (λ s, (strip (g_chart_type s), strip (g_diff_class s)))
<$> filter supported (finditer_notes 0 content) ∧
(∀ notes0, ∃ notes0', parse_sm_file content notes0 = Ok (charts, notes0')) ∧
Forall (λ c, title (chart_metadata c) = _extract_tag content "TITLE" ∧
 subtitle (chart_metadata c) = _extract_tag content "SUBTITLE" ∧
 artist (chart_metadata c) = _extract_tag content "ARTIST" ∧
 credit (chart_metadata c) = _extract_tag content "CREDIT" ∧
 _parse_bpms content = Ok (bpms (chart_metadata c)) ∧
 _parse_stops content = Ok (stops (chart_metadata c)) ∧
 _parse_warps content = Ok (warps (chart_metadata c)) ∧
 _parse_fakes content = Ok (fakes (chart_metadata c)) ∧
 _parse_speeds content = Ok (speeds (chart_metadata c)) ∧
 _parse_scrolls content = Ok (scrolls (chart_metadata c)))
 charts.
Proof.
unfold parse_sm_file.
destruct (_parse_bpms content) as [b|]; cbn [bind]; [|discriminate].
destruct (_parse_stops content) as [s|]; cbn [bind]; [|discriminate].
destruct (_parse_warps content) as [w|]; cbn [bind]; [|discriminate].
destruct (_parse_fakes content) as [f|]; cbn [bind]; [|discriminate].
destruct (_parse_speeds content) as [sp|]; cbn [bind]; [|discriminate].
destruct (_parse_scrolls content) as [sc|]; cbn [bind]; [|discriminate].
intros (Hn & new & -> & Hnew & Hany & Hmeta)%for_each_parse_section_Ok.
split_and!; [done | done | done |].
eapply Forall_impl; [exact Hmeta |]. cbn.
intros c (-> & -> & -> & -> & -> & -> & -> & -> & -> & ->). done.
Qed.

End Sections.

Lemma charts_follow_supported_sections_aux
    (B : Builtins) (content : string) (self_notes notes : list Note)
    (charts : list Chart) :
  parse_sm_file content self_notes = Ok (charts, notes) →
  (λ c, (chart_type c, difficulty (chart_metadata c))) <$> charts
  = (λ s, (strip (g_chart_type s), strip (g_diff_class s)))
      <$> filter (λ s, strip (g_chart_type s) ∈ ["dance-single"; "dance-double"])
                 (finditer_notes 0 content).
Proof. intros Hp. by destruct (parse_sm_file_Ok _ _ _ _ Hp) as (_ & ? & _). Qed.

(** X12.  [parse_sm_file] returns one chart for each [#NOTES] section whose
    stripped type is dance-single or dance-double, in file order, with the
    stripped type and difficulty label of its section; sections of any other
    type are dropped. *)
Theorem charts_follow_supported_sections
    (B : Builtins) (content : string) (self_notes notes : list Note)
    (charts : list Chart) :
  parse_sm_file content self_notes = Ok (charts, notes) →
  (λ c, (chart_type c, difficulty (chart_metadata c))) <$> charts
  = (λ s, (strip (g_chart_type s), strip (g_diff_class s)))
      <$> filter (λ s, strip (g_chart_type s) ∈ ["dance-single"; "dance-double"])
                 (finditer_notes 0 content).
Proof. intros Hp. by destruct (parse_sm_file_Ok _ _ _ _ Hp) as (_ & ? & _). Qed.

(** X13.  Every chart of a file carries the same metadata: the four scalar
    tags of the text and the six timing lists the parsers return for it. *)
Theorem charts_share_file_metadata
    (B : Builtins) (content : string) (self_notes notes : list Note)
    (charts : list Chart) :
  parse_sm_file content self_notes = Ok (charts, notes) →
  Forall (λ c, title (chart_metadata c) = _extract_tag content "TITLE" ∧
               subtitle (chart_metadata c) = _extract_tag content "SUBTITLE" ∧
               artist (chart_metadata c) = _extract_tag content "ARTIST" ∧
               credit (chart_metadata c) = _extract_tag content "CREDIT" ∧
               _parse_bpms content = Ok (bpms (chart_metadata c)) ∧
               _parse_stops content = Ok (stops (chart_metadata c)) ∧
               _parse_warps content = Ok (warps (chart_metadata c)) ∧
               _parse_fakes content = Ok (fakes (chart_metadata c)) ∧
               _parse_speeds content = Ok (speeds (chart_metadata c)) ∧
               _parse_scrolls content = Ok (scrolls (chart_metadata c)))
         charts.
Proof. intros Hp. by destruct (parse_sm_file_Ok _ _ _ _ Hp) as (_ & _ & _ & ?). Qed.

(** X14.  Parsing a file on a visualizer that already holds notes returns
    the charts a fresh visualizer returns, and appends to the notes already
    there the notes a fresh visualizer collects (beat, column and kind; hold
    lengths may differ).  So the second call that [process_sm_file] makes
    leaves every note of the file twice in [self.notes]. *)
Theorem parsing_again_appends_the_same_notes
    (B : Builtins) (content : string) (self_notes fresh : list Note)
    (charts : list Chart) :
  parse_sm_file content [] = Ok (charts, fresh) →
  ∃ notes,
    parse_sm_file content self_notes = Ok (charts, notes) ∧
    shape <$> notes = (shape <$> self_notes) ++ (shape <$> fresh).
Proof.
  intros Hp.
  destruct (parse_sm_file_Ok _ _ _ _ Hp) as (Hfresh & _ & Hany & _).
  destruct (Hany self_notes) as [notes Hn]. exists notes. split; [done |].
  destruct (parse_sm_file_Ok _ _ _ _ Hn) as (Hnotes & _).
  by rewrite Hnotes, Hfresh.
Qed.

Lemma charts_follow_supported_sections_witness :
  ∃ charts notes,
    @parse_sm_file Decimal.builtins
      "#NOTES:dance-single:a:Easy:1:0:1000;#NOTES:pump-single:b:Hard:7:0:1000;#NOTES: dance-double :c: Hard :9:0:10000000;"
      [] = Ok (charts, notes) ∧
    (λ c, (chart_type c, difficulty (chart_metadata c))) <$> charts
    = [("dance-single", "Easy"); ("dance-double", "Hard")].
Proof.
  assert (∃ charts notes,
            @parse_sm_file Decimal.builtins
              "#NOTES:dance-single:a:Easy:1:0:1000;#NOTES:pump-single:b:Hard:7:0:1000;#NOTES: dance-double :c: Hard :9:0:10000000;"
              [] = Ok (charts, notes)) as (charts & notes & Hp)
    by (vm_compute; eauto).
  exists charts, notes. split; [exact Hp |].
  rewrite (charts_follow_supported_sections _ _ _ _ _ Hp).
  vm_compute. reflexivity.
Defined.

Lemma charts_share_file_metadata_witness :
  ∃ charts notes,
    @parse_sm_file Decimal.builtins
      "#TITLE: Song ;#BPMS:0=120;#NOTES:dance-single:a:Easy:1:0:1000;#NOTES:dance-double:c:Hard:9:0:10000000;"
      [] = Ok (charts, notes) ∧
    Forall (λ c, title (chart_metadata c) = "Song" ∧
                 bpms (chart_metadata c) = [(Finite 0, Finite 120)]) charts.
Proof.
  assert (∃ charts notes,
            @parse_sm_file Decimal.builtins
              "#TITLE: Song ;#BPMS:0=120;#NOTES:dance-single:a:Easy:1:0:1000;#NOTES:dance-double:c:Hard:9:0:10000000;"
              [] = Ok (charts, notes)) as (charts & notes & Hp)
    by (vm_compute; eauto).
  exists charts, notes. split; [exact Hp |].
  eapply Forall_impl; [exact (charts_share_file_metadata _ _ _ _ _ Hp) |].
  intros c (Ht & _ & _ & _ & Hb & _). split; [exact Ht |].
  assert (@_parse_bpms Decimal.builtins
            "#TITLE: Song ;#BPMS:0=120;#NOTES:dance-single:a:Easy:1:0:1000;#NOTES:dance-double:c:Hard:9:0:10000000;"
          = Ok [(Finite 0, Finite 120)]) as E by (vm_compute; reflexivity).
  rewrite E in Hb. by injection Hb.
Defined.

Lemma parsing_again_appends_the_same_notes_witness :
  ∃ charts fresh notes,
    @parse_sm_file Decimal.builtins
      "#NOTES:dance-single:a:Easy:1:0:1000;" [] = Ok (charts, fresh) ∧
    @parse_sm_file Decimal.builtins
      "#NOTES:dance-single:a:Easy:1:0:1000;" fresh = Ok (charts, notes) ∧
    shape <$> notes = (shape <$> fresh) ++ (shape <$> fresh).
Proof.
  assert (∃ charts fresh,
            @parse_sm_file Decimal.builtins
              "#NOTES:dance-single:a:Easy:1:0:1000;" [] = Ok (charts, fresh))
    as (charts & fresh & Hp) by (vm_compute; eauto).
  destruct (parsing_again_appends_the_same_notes _ _ fresh _ _ Hp)
    as (notes & Hn & Hs).
  exists charts, fresh, notes. by split_and!.
Defined.

(** ** Rendering after parsing *)

Lemma generate_visualization_None (chart : Chart) (measures : option Z) :
  chart_notes chart = None →
  generate_visualization chart measures = Raise TypeError.
Proof.
  intros Hn. unfold generate_visualization. rewrite Hn.
  destruct measures as [m|]; [destruct (bool_decide (m ≠ 0%Z)) |]; reflexivity.
Qed.

(** X15.  [process_sm_file] never produces an image: it returns only when
    the file has no supported section, and then with no image; with at
    least one chart it raises [TypeError] at the first rendering, since the
    charts carry [None] as notes.  Any other failure is the [ValueError] of
    the parser. *)
Theorem process_sm_file_never_renders
    (B : Builtins) (content : string) (measures : option Z) :
  match process_sm_file content measures with
  | Ok sizes =>
      sizes = [] ∧
      filter (λ s, strip (g_chart_type s) ∈ ["dance-single"; "dance-double"])
             (finditer_notes 0 content) = []
  | Raise e => e = ValueError ∨ e = TypeError
  end.
Proof.
  unfold process_sm_file, init.
  destruct (parse_sm_file content []) as [[charts0 notes0]|e] eqn:E0;
    cbn [bind snd]; [|left; by eapply parse_sm_file_raises].
  destruct (parse_sm_file content notes0) as [[charts notes]|e] eqn:E1;
    cbn [bind snd]; [|left; by eapply parse_sm_file_raises].
  pose proof (parse_sm_file_chart_notes content notes0) as Hnone.
  rewrite E1 in Hnone.
  pose proof (charts_follow_supported_sections_aux _ _ _ _ _ E1) as Hc.
  cbn [fst]. destruct charts as [|chart charts].
  - cbn [for_each]. split; [done |]. symmetry in Hc.
    by apply fmap_nil_inv in Hc.
  - apply Forall_cons in Hnone as [Hn _]. cbn [for_each].
    rewrite (generate_visualization_None _ _ Hn). cbn [bind]. by right.
Qed.

(** ** The canvas and the notes *)

Lemma fold_max_ge (init : Q) (l : list Q) :
  (init <= fold_left (λ m y, if float_lt m y then y else m) l init)%Q ∧
  Forall (λ x, x <= fold_left (λ m y, if float_lt m y then y else m) l init)%Q l.
Proof.
  revert init. induction l as [|y l IH]; intros init; simpl.
  - split; [apply Qle_refl | constructor].
  - destruct (IH (if float_lt init y then y else init)) as [Hi Hl].
    destruct (float_lt init y) eqn:E.
    + apply float_lt_spec in E. split; [lra |]. by constructor.
    + apply float_lt_false in E. split; [done |]. constructor; [lra | done].
Qed.

Lemma py_max_ge (xs : list Q) (m : Q) :
  py_max xs = Ok m → Forall (λ x, x <= m)%Q xs.
Proof.
  destruct xs as [|x xs]; [discriminate |]. intros [= <-].
  destruct (fold_max_ge x xs) as [Hx Hxs]. by constructor.
Qed.

Lemma int_of_float_above (x : Q) : (x < inject_Z (int_of_float x + 1))%Q.
Proof.
  unfold int_of_float, Qlt. cbn [Qnum Qden inject_Z].
  pose proof (Z.quot_rem' (Qnum x) (QDen x)) as Hqr.
  assert (Z.rem (Qnum x) (QDen x) < QDen x)%Z as Hr.
  { destruct (Z.le_gt_cases 0 (Qnum x)).
    - apply Z.rem_bound_pos; lia.
    - pose proof (Z.rem_nonpos (Qnum x) (QDen x)). lia. }
  nia.
Qed.

(** X16.  With no measure limit the canvas is tall enough for every note:
    each note is drawn below the top padding ([y > 40]), and a note with a
    non-negative beat at or above the bottom line ([y <= height - 40]). *)
Theorem canvas_without_limit_holds_every_note
    (chart : Chart) (notes : list Note) (width height : Z) :
  chart_notes chart = Some notes →
  generate_visualization chart None = Ok (width, height) →
  Forall (λ n, (40 < note_y height n)%Q ∧
               ((0 <= beat n)%Q → (note_y height n <= inject_Z height - 40)%Q))
         notes.
Proof.
  intros Hn. unfold generate_visualization. rewrite Hn.
  destruct (py_max (beat <$> notes)) as [m|] eqn:Hm; cbn [bind]; [|discriminate].
  destruct notes as [|first rest]; [discriminate |]. cbn [bind].
  intros [= _ <-].
  apply py_max_ge in Hm. rewrite Forall_forall in Hm.
  apply Forall_forall. intros n Hin.
  pose proof (Hm (beat n) (list_elem_of_fmap_2 beat _ _ Hin)) as Hle.
  cbn beta in Hle.
  unfold note_y.
  pose proof (int_of_float_above (m / 4)) as Habove.
  rewrite !inject_Z_plus, !inject_Z_mult, inject_Z_plus in *.
  change (inject_Z 40) with 40%Q. change (inject_Z 2) with 2%Q.
  change (inject_Z 4) with 4%Q. change (inject_Z 60) with 60%Q.
  change (inject_Z 1) with 1%Q in *.
  assert (m == 4 * (m / 4))%Q as Hm4 by field.
  set (q := (m / 4)%Q) in *. set (k := inject_Z (int_of_float q)) in *.
  split; [|intros Hb]; lra.
Qed.

Lemma canvas_without_limit_holds_every_note_witness :
  let notes := [ {| beat := 0; column := 0; type := "tap";
                    hold_length := 0; is_fake := false |};
                 {| beat := 9; column := 3; type := "mine";
                    hold_length := 0; is_fake := false |} ] in
  let chart := {| chart_metadata :=
                    {| title := ""; subtitle := ""; artist := ""; credit := "";
                       difficulty := "Hard"; meter := 7; bpms := [];
                       stops := []; warps := []; fakes := []; speeds := [];
                       scrolls := [] |};
                  chart_notes := Some notes; chart_type := "dance-single" |} in
  chart_notes chart = Some notes ∧
  generate_visualization chart None = Ok (152, 800)%Z ∧
  Forall (λ n, (40 < note_y 800 n)%Q) notes.
Proof.
  set (notes := [ {| beat := 0; column := 0; type := "tap";
                     hold_length := 0; is_fake := false |};
                  {| beat := 9; column := 3; type := "mine";
                     hold_length := 0; is_fake := false |} ]).
  set (chart := {| chart_metadata :=
                    {| title := ""; subtitle := ""; artist := ""; credit := "";
                       difficulty := "Hard"; meter := 7; bpms := [];
                       stops := []; warps := []; fakes := []; speeds := [];
                       scrolls := [] |};
                  chart_notes := Some notes; chart_type := "dance-single" |}).
  assert (chart_notes chart = Some notes) as Hn by reflexivity.
  assert (generate_visualization chart None = Ok (152, 800)%Z) as Hg
    by reflexivity.
  split; [exact Hn |]. split; [exact Hg |].
  eapply Forall_impl;
    [exact (canvas_without_limit_holds_every_note chart notes 152 800 Hn Hg) |].
  by intros n [? _].
Defined.

(** ** Finding the sections *)

Lemma length_lstrip (s : string) : len (lstrip s) ≤ len s.
Proof.
  induction s as [|c s IH]; simpl; [lia |].
  destruct (isspace c); simpl; unfold len in *; lia.
Qed.

Lemma lstrip_app_colon (t rest : string) :
  lstrip t = t → lstrip (t +:+ String ":" rest) = t +:+ String ":" rest.
Proof.
  destruct t as [|c t]; [done |]. intros Ht.
  rewrite string_app_cons. simpl in *.
  destruct (isspace c); [|done].
  pose proof (length_lstrip t) as Hl. rewrite Ht in Hl.
  unfold len in Hl. simpl in Hl. lia.
Qed.

Lemma finditer_notes_skip_all (skip : nat) (s : string) :
  len s ≤ skip → finditer_notes skip s = [].
Proof.
  revert skip. induction s as [|c s IH]; intros [|skip] Hl; try done.
  - unfold len in Hl. simpl in Hl. lia.
  - simpl. apply IH. unfold len in *. simpl in Hl. lia.
Qed.

Lemma finditer_notes_single (content : string) (section : NotesSection) :
  match_notes content = Some (section, "") →
  finditer_notes 0 content = [section].
Proof.
  destruct content as [|c content]; [discriminate |].
  intros Hm. cbn [finditer_notes]. rewrite Hm. f_equal.
  apply finditer_notes_skip_all. unfold len. simpl. lia.
Qed.

Lemma match_notes_block (section : NotesSection) :
  lstrip (g_chart_type section) = g_chart_type section →
  contains ":" (g_chart_type section) = false →
  contains ":" (g_desc section) = false →
  contains ":" (g_diff_class section) = false →
  contains ":" (g_diff_meter section) = false →
  contains ":" (g_groove_radar section) = false →
  contains ";" (g_notes_data section) = false →
  match_notes (notes_block section) = Some (section, "").
Proof.
  destruct section as [t d c m g data]. cbn [g_chart_type g_desc g_diff_class
    g_diff_meter g_groove_radar g_notes_data].
  intros Ht Ht' Hd Hc Hm Hg Hdata.
  unfold match_notes, notes_block. cbn [g_chart_type g_desc g_diff_class
    g_diff_meter g_groove_radar g_notes_data].
  rewrite (proj2 (after_prefix_Some "#NOTES:" _ _) eq_refl). cbn [mbind option_bind].
  change (":" +:+ ?x) with (String ":" x).
  change (";" +:+ ?x) with (String ";" x).
  rewrite lstrip_app_colon by done.
  repeat (rewrite until_app by done; cbn [mbind option_bind];
          try change (":" +:+ ?x) with (String ":" x);
          try change (";" +:+ ?x) with (String ";" x)).
  reflexivity.
Qed.

(** X17.  A block written from six fields is found again with the same
    fields: when the five leading fields hold no [:], the grid holds no
    [;], and the chart type has no white space in front, [re.finditer]
    yields exactly the one match whose groups are the fields. *)
Theorem notes_block_is_found_with_its_fields (section : NotesSection) :
  lstrip (g_chart_type section) = g_chart_type section →
  contains ":" (g_chart_type section) = false →
  contains ":" (g_desc section) = false →
  contains ":" (g_diff_class section) = false →
  contains ":" (g_diff_meter section) = false →
  contains ":" (g_groove_radar section) = false →
  contains ";" (g_notes_data section) = false →
  finditer_notes 0 (notes_block section) = [section].
Proof.
  intros. by apply finditer_notes_single, match_notes_block.
Qed.

Lemma notes_block_is_found_with_its_fields_witness :
  let section := {| g_chart_type := "dance-single"; g_desc := "K. Ward";
                    g_diff_class := "Hard"; g_diff_meter := "7";
                    g_groove_radar := "0.5,0.2,0,0,0";
                    g_notes_data := "1000
0100
,0010
0001
" |} in
  notes_block section =
    "#NOTES:dance-single:K. Ward:Hard:7:0.5,0.2,0,0,0:1000
0100
,0010
0001
;" ∧
  finditer_notes 0 (notes_block section) = [section].
Proof.
  cbv zeta. split; [reflexivity |].
  by apply notes_block_is_found_with_its_fields.
Defined.

(** ** What the parsers leave alone *)

(** X18.  Hold resolution only writes hold lengths: it keeps the number and
    order of the notes and the beat, column, kind and fake flag of each, and
    it leaves a note that is not a head exactly as it was. *)
Theorem process_holds_changes_hold_lengths_only (notes : list Note) :
  shape <$> _process_holds notes = shape <$> notes ∧
  ∀ i n, notes !! i = Some n → is_head n = false →
         _process_holds notes !! i = Some n.
Proof.
  rewrite process_holds_eq. split.
  - by apply resolve_all_fmap.
  - intros i n Hi Hh. by rewrite (resolve_all_lookup _ _ _ Hi), Hh.
Qed.

(** X19.  Parsing a grid into a list that already holds notes keeps those
    notes in place (beat, column, kind) and puts after them the notes the
    same grid gives on an empty list. *)
Theorem parse_notes_appends_the_notes_of_the_grid
    (notes_data : string) (self_notes : list Note) :
  shape <$> _parse_notes notes_data self_notes
  = (shape <$> self_notes) ++ (shape <$> _parse_notes notes_data []).
Proof.
  rewrite (parse_notes_all shape notes_data self_notes) by done.
  by rewrite (parse_notes_all shape notes_data []) by done.
Qed.

(** X20.  A file whose first [#SPEEDS] block has an entry with [=] cannot be
    parsed: [parse_sm_file] raises [ValueError], whatever else the file
    holds, before the block or after it. *)
Theorem file_with_speed_entries_cannot_be_parsed
    (B : Builtins) (pre body post content : string) (self_notes : list Note) :
  first_block "SPEEDS" pre body post content →
  existsb (contains "=") (split "," (strip body)) = true →
  parse_sm_file content self_notes = Raise ValueError.
Proof.
  intros Hfirst Hex. unfold parse_sm_file.
  assert (_parse_speeds content = Raise ValueError) as Hs.
  { rewrite parse_speeds_eq.
    by rewrite (re_search_tag_first _ _ _ _ _ Hfirst), Hex. }
  destruct (_parse_bpms content) eqn:E1; cbn [bind];
    [|f_equal; by eapply parse_pairs_raises].
  destruct (_parse_stops content) eqn:E2; cbn [bind];
    [|f_equal; by eapply parse_pairs_raises].
  destruct (_parse_warps content) eqn:E3; cbn [bind];
    [|f_equal; by eapply parse_pairs_raises].
  destruct (_parse_fakes content) eqn:E4; cbn [bind];
    [|f_equal; by eapply parse_pairs_raises].
  by rewrite Hs.
Qed.

Lemma file_with_speed_entries_cannot_be_parsed_witness :
  let content :=
    "#TITLE:a;#BPMS:0=120;#SPEEDS:0=1.5,0.5;#NOTES:dance-single:a:Easy:1:0:1000;" in
  first_block "SPEEDS" "#TITLE:a;#BPMS:0=120;" "0=1.5,0.5"
    "#NOTES:dance-single:a:Easy:1:0:1000;" content ∧
  existsb (contains "=") (split "," (strip "0=1.5,0.5")) = true ∧
  @parse_sm_file Decimal.builtins content [] = Raise ValueError.
Proof.
  assert (first_block "SPEEDS" "#TITLE:a;#BPMS:0=120;" "0=1.5,0.5"
            "#NOTES:dance-single:a:Easy:1:0:1000;"
            "#TITLE:a;#BPMS:0=120;#SPEEDS:0=1.5,0.5;#NOTES:dance-single:a:Easy:1:0:1000;")
    as Hfirst by (split_and!; reflexivity).
  pose proof (file_with_speed_entries_cannot_be_parsed Decimal.builtins
                _ _ _ _ [] Hfirst eq_refl) as H.
  exact (conj Hfirst (conj eq_refl H)).
Defined.
